(** * junit_log_parser: service logs to JUnit suites

    A shallow embedding of [discovery-infra/junit_log_parser.py] and
    proofs about the cases it builds from log lines.

    Python [str] values are modelled as [string]; [None]-able values as
    [option]; the insertion-ordered [dict] as an association list; Python
    exceptions as values of [exn] carried by [result]. *)

From Stdlib Require Import String Ascii List Bool Arith Lia Permutation.
From Stdlib Require Import DecimalString.
Import ListNotations.

Open Scope string_scope.
Open Scope list_scope.

Set Implicit Arguments.

(** ** Python values *)

(** The line feed and the double quote, the two characters that cannot be
    written inside a literal here. *)
Definition LF : ascii := "010"%char.
Definition nl : string := String LF EmptyString.
Definition dq : string := String "034"%char EmptyString.

(** [str(x)] / [f"{x}"] for a value that is a [str] or [None]. *)
Definition py_format (o : option string) : string :=
  match o with
  | Some s => s
  | None => "None"
  end.

(** Truthiness of a [str]-or-[None] value: [None] and the empty string are
    falsy. *)
Definition truthy (o : option string) : bool :=
  match o with
  | Some (String _ _) => true
  | _ => false
  end.

(** [a == b] on [str]-or-[None] values. *)
Definition py_eqb (a b : option string) : bool :=
  match a, b with
  | Some x, Some y => String.eqb x y
  | None, None => true
  | _, _ => false
  end.

(** [x in t] for a tuple of strings [t]. *)
Definition py_in (x : option string) (t : list string) : bool :=
  existsb (fun y => py_eqb x (Some y)) t.

(** Exceptions the embedded code can meet. *)
Inductive exn : Type :=
| TypeError
| KeyError
| FileNotFoundError
| FileExistsError
| NotADirectoryError
| PermissionError
| UnicodeDecodeError
| OSError
| KeyboardInterrupt
| SystemExit.

Inductive result (A : Type) : Type :=
| Ok (a : A)
| Raise (e : exn).

Arguments Ok {A} a.
Arguments Raise {A} e.

Definition rbind {A B} (r : result A) (f : A -> result B) : result B :=
  match r with
  | Ok a => f a
  | Raise e => Raise e
  end.

Notation "x <- c1 ;; c2" := (rbind c1 (fun x => c2))
  (at level 61, c1 at next level, right associativity).

(** ** Insertion-ordered dictionaries *)

Module Dict.
Section Dict.
Variable V : Type.

(** Keys are [str]-or-[None] values; bindings are kept in insertion
    order, as [dict] does. *)
Definition t := list (option string * V).

Definition empty : t := [].

Fixpoint get (d : t) (k : option string) : option V :=
  match d with
  | [] => None
  | (k', v) :: d' => if py_eqb k' k then Some v else get d' k
  end.

(** [k in d] *)
Definition contains (d : t) (k : option string) : bool :=
  match get d k with
  | Some _ => true
  | None => false
  end.

(** [d.get(k, default)] *)
Definition get_default (d : t) (k : option string) (default : V) : V :=
  match get d k with
  | Some v => v
  | None => default
  end.

(** [d[k]]: raises [KeyError] on a missing key. *)
Definition getitem (d : t) (k : option string) : result V :=
  match get d k with
  | Some v => Ok v
  | None => Raise KeyError
  end.

(** [d[k] = v]: an existing key keeps its position, a new key goes last. *)
Fixpoint setitem (d : t) (k : option string) (v : V) : t :=
  match d with
  | [] => [(k, v)]
  | (k', v') :: d' =>
      if py_eqb k' k then (k', v) :: d' else (k', v') :: setitem d' k v
  end.

Definition keys (d : t) : list (option string) := map fst d.

(** [d.values()] *)
Definition values (d : t) : list V := map snd d.
End Dict.
End Dict.

(** ** Regular expressions: the fragment [LOG_FORMAT] is written in *)

Inductive regex : Type :=
| Lit (s : string)                       (* literal text *)
| DotStar (greedy : bool)                (* [.*] and [.*?]; [.] excludes LF *)
| Group (name : option string) (r : regex)  (* [(...)] and [(?P<name>...)] *)
| Cat (r1 r2 : regex)
| Opt (r : regex).                       (* [(...)?] *)

(** Named captures, most recent first. *)
Definition captures := list (string * string).

Fixpoint lookup (n : string) (env : captures) : option string :=
  match env with
  | [] => None
  | (n', v) :: env' => if String.eqb n' n then Some v else lookup n env'
  end.

(** Strip the literal [p] from the front of [s]. *)
Fixpoint strip_prefix (p s : string) : option string :=
  match p with
  | EmptyString => Some s
  | String a p' =>
      match s with
      | EmptyString => None
      | String b s' => if Ascii.eqb a b then strip_prefix p' s' else None
      end
  end.

(** The text consumed between a position [s] and a later position [s']. *)
Definition consumed (s s' : string) : string :=
  substring 0 (String.length s - String.length s') s.

Definition record (name : option string) (text : string) (env : captures) : captures :=
  match name with
  | Some n => (n, text) :: env
  | None => env
  end.

(** Backtracking over the number of characters [.*] takes: longest first
    when greedy, shortest first otherwise. *)
Fixpoint dotstar (greedy : bool) (k : string -> option captures) (s : string)
  : option captures :=
  match s with
  | EmptyString => k s
  | String c t =>
      if Ascii.eqb c LF then k s
      else if greedy then
        match dotstar greedy k t with
        | Some e => Some e
        | None => k s
        end
      else
        match k s with
        | Some e => Some e
        | None => dotstar greedy k t
        end
  end.

(** The backtracking matcher, in continuation-passing style: [k] is given
    the rest of the subject and the captures so far, and the first
    alternative it accepts wins. *)
Fixpoint rmatch (r : regex) (s : string) (env : captures)
    (k : string -> captures -> option captures) : option captures :=
  match r with
  | Lit p =>
      match strip_prefix p s with
      | Some s' => k s' env
      | None => None
      end
  | DotStar g => dotstar g (fun s' => k s' env) s
  | Group n r' => rmatch r' s env (fun s' env' => k s' (record n (consumed s s') env'))
  | Cat r1 r2 => rmatch r1 s env (fun s' env' => rmatch r2 s' env' k)
  | Opt r' =>
      match rmatch r' s env k with
      | Some e => Some e
      | None => k s env
      end
  end.

Fixpoint group_names (r : regex) : list string :=
  match r with
  | Lit _ | DotStar _ => []
  | Group (Some n) r' => n :: group_names r'
  | Group None r' => group_names r'
  | Cat r1 r2 => group_names r1 ++ group_names r2
  | Opt r' => group_names r'
  end.

(** [re.match(r, s)]: anchored at the start only; [None] when nothing
    matches, otherwise the match's [groupdict()], which lists every named
    group of the pattern, a group that took no part being [None]. *)
Definition re_match (r : regex) (s : string) : option (list (string * option string)) :=
  match rmatch r s [] (fun _ env => Some env) with
  | Some env => Some (map (fun n => (n, lookup n env)) (group_names r))
  | None => None
  end.

(** ** The parser's data *)

Record CaseFailure : Type := mkCaseFailure {
  message : string;
  output : string;
  type : option string
}.

Record LogEntry : Type := mkLogEntry {
  time : option string;
  level : option string;
  msg : option string;
  func : option string;
  file : option string;
  error : option string
}.

(** [LogEntry()] with every field at its default. *)
Definition LogEntry_default : LogEntry := mkLogEntry None None None None None None.

Definition set_field (e : LogEntry) (k : string) (v : option string) : result LogEntry :=
  if String.eqb k "time" then Ok (mkLogEntry v (level e) (msg e) (func e) (file e) (error e))
  else if String.eqb k "level" then Ok (mkLogEntry (time e) v (msg e) (func e) (file e) (error e))
  else if String.eqb k "msg" then Ok (mkLogEntry (time e) (level e) v (func e) (file e) (error e))
  else if String.eqb k "func" then Ok (mkLogEntry (time e) (level e) (msg e) v (file e) (error e))
  else if String.eqb k "file" then Ok (mkLogEntry (time e) (level e) (msg e) (func e) v (error e))
  else if String.eqb k "error" then Ok (mkLogEntry (time e) (level e) (msg e) (func e) (file e) v)
  else Raise TypeError.

(** [LogEntry] called with keyword arguments unpacked from a dictionary:
    a keyword that is no field raises [TypeError]. *)
Fixpoint LogEntry_init (e : LogEntry) (kwargs : list (string * option string)) : result LogEntry :=
  match kwargs with
  | [] => Ok e
  | (k, v) :: rest => e' <- set_field e k v ;; LogEntry_init e' rest
  end.

Declare Scope regex_scope.
Delimit Scope regex_scope with re.
Infix "~>" := Cat (at level 60, right associativity) : regex_scope.

(** [LOG_FORMAT], one line of the source per line. *)
Definition LOG_FORMAT : regex :=
  (Lit ("time=" ++ dq) ~> Group (Some "time") (Group None (DotStar false)) ~> Lit (dq ++ " ") ~>
   Lit "level=" ~> Group (Some "level") (Group None (DotStar false)) ~> Lit " " ~>
   Lit ("msg=" ++ dq) ~> Group (Some "msg") (DotStar true) ~> Lit (dq ++ " ") ~>
   Lit "func=" ~> Group (Some "func") (DotStar true) ~> Lit " " ~>
   Lit ("file=" ++ dq) ~> Group (Some "file") (Group None (DotStar false)) ~> Lit (dq ++ " ") ~>
   Opt (Group None (Lit ("error=" ++ dq) ~> Group (Some "error") (DotStar true) ~> Lit dq)))%re.

Definition EXPORTED_LOG_LEVELS : list string := ["fatal"; "error"].
Definition EXPORTED_EVENT_LEVELS : list string := ["critical"; "error"].

(** ** Report records (the [junit_xml] classes the parser fills in) *)

Module TestCase.
(** A [junit_xml.TestCase]: [name] is required, every other attribute
    defaults to [None], and the three result lists start empty. *)
Record t : Type := mk {
  name : option string;
  classname : option string;
  elapsed_sec : option string;
  stdout : option string;
  stderr : option string;
  timestamp : option string;
  status : option string;
  category : option string;
  errors : list CaseFailure;
  failures : list CaseFailure;
  skipped : list CaseFailure
}.

(** [TestCase(name=.., classname=.., category=.., timestamp=..)] *)
Definition init (name classname category timestamp : option string) : t :=
  mk name classname None None None timestamp None category [] [] [].

(** [case.failures.append(f)] *)
Definition failures_append (c : t) (f : CaseFailure) : t :=
  mk (name c) (classname c) (elapsed_sec c) (stdout c) (stderr c) (timestamp c)
     (status c) (category c) (errors c) (failures c ++ [f]) (skipped c).
End TestCase.

Module TestSuite.
(** A [junit_xml.TestSuite], with the attributes the exporter sets. *)
Record t : Type := mk {
  name : string;
  test_cases : list TestCase.t;
  timestamp : option string
}.
End TestSuite.

Definition fail_cases_t := Dict.t (list TestCase.t).

(** ** Deduplication and case building *)

(** [case.failures and case.failures[0].message == entry_message] *)
Definition has_message (entry_message : string) (case : TestCase.t) : bool :=
  match TestCase.failures case with
  | [] => false
  | f :: _ => String.eqb (message f) entry_message
  end.

Definition is_duplicate_entry (entry : LogEntry) (entry_message : string)
    (fail_cases : fail_cases_t) : bool :=
  existsb (has_message entry_message) (Dict.get_default fail_cases (func entry) []).

(** The f-string [f"{entry.msg}\n{entry.error if entry.error else ''}"]. *)
Definition entry_message (entry : LogEntry) : string :=
  py_format (msg entry) ++ nl ++
  (if truthy (error entry) then py_format (error entry) else EmptyString).

Definition get_log_entry_case (entry : LogEntry) (fail_cases : fail_cases_t)
    (suite_name : string) : list TestCase.t :=
  let message := entry_message entry in
  if is_duplicate_entry entry message fail_cases then []
  else
    let test_case :=
      TestCase.init (func entry) (Some suite_name) (Some suite_name) (time entry) in
    let test_case :=
      TestCase.failures_append test_case (mkCaseFailure message message (level entry)) in
    let fail_case := [test_case] in
    if negb (py_eqb (level entry) (Some "fatal")) then
      let flaky_test_case :=
        TestCase.init (func entry) (Some suite_name) (Some suite_name) None in
      fail_case ++ [flaky_test_case]
    else fail_case.

(** The body of the loop over the lines of one file. *)
Definition process_line (suite_name : string) (fail_cases : fail_cases_t)
    (line : string) : result fail_cases_t :=
  match re_match LOG_FORMAT line with
  | None => Ok fail_cases
  | Some values =>
      entry <- LogEntry_init LogEntry_default values ;;
      if negb (py_in (level entry) EXPORTED_LOG_LEVELS) then Ok fail_cases
      else
        let fail_cases :=
          if negb (Dict.contains fail_cases (func entry))
          then Dict.setitem fail_cases (func entry) []
          else fail_cases in
        old <- Dict.getitem fail_cases (func entry) ;;
        Ok (Dict.setitem fail_cases (func entry)
              (old ++ get_log_entry_case entry fail_cases suite_name))
  end.

Fixpoint process_lines (suite_name : string) (lines : list string)
    (fail_cases : fail_cases_t) : result fail_cases_t :=
  match lines with
  | [] => Ok fail_cases
  | line :: rest =>
      fail_cases' <- process_line suite_name fail_cases line ;;
      process_lines suite_name rest fail_cases'
  end.

(** The list comprehension that flattens the dictionary's values. *)
Definition flatten (fail_cases : fail_cases_t) : list TestCase.t :=
  concat (Dict.values fail_cases).

(** ** Strings and paths *)

(** [len(x)] printed in decimal, as an f-string does. *)
Definition str_of_nat (n : nat) : string := NilEmpty.string_of_uint (Nat.to_uint n).

(** [s.replace(old, new)] for a non-empty [old]: occurrences are found left
    to right and do not overlap; [skip] counts the characters of the
    occurrence just replaced that are still to be passed over. *)
Fixpoint replace_from (old new : string) (skip : nat) (s : string) : string :=
  match s with
  | EmptyString => EmptyString
  | String c t =>
      match skip with
      | S n => replace_from old new n t
      | O =>
          if prefix old s
          then new ++ replace_from old new (String.length old - 1) t
          else String c (replace_from old new 0 t)
      end
  end.

Definition replace (old new s : string) : string := replace_from old new 0 s.

(** [s.rfind(c)] for one character. *)
Fixpoint rfind (c : ascii) (s : string) : option nat :=
  match s with
  | EmptyString => None
  | String a t =>
      match rfind c t with
      | Some i => Some (S i)
      | None => if Ascii.eqb a c then Some 0 else None
      end
  end.

(** [fnmatch] for patterns made of literal characters and [*]. *)
Fixpoint fnmatch (pat : string) (s : string) : bool :=
  match pat with
  | EmptyString => match s with EmptyString => true | _ => false end
  | String p pat' =>
      if Ascii.eqb p "*"%char then
        (fix star (s : string) : bool :=
           fnmatch pat' s ||
           match s with
           | EmptyString => false
           | String _ t => star t
           end) s
      else
        match s with
        | EmptyString => false
        | String c t => Ascii.eqb p c && fnmatch pat' t
        end
  end.

Module Path.
(** A [pathlib.Path], kept as its parts. *)
Definition t := list string.

Fixpoint split (acc s : string) : list string :=
  match s with
  | EmptyString => [acc]
  | String c r =>
      if Ascii.eqb c "/"%char then acc :: split EmptyString r
      else split (acc ++ String c EmptyString) r
  end.

Definition is_part (s : string) : bool :=
  negb (String.eqb s EmptyString) && negb (String.eqb s ".").

(** [Path(x)]: [None] is no path and raises [TypeError]. *)
Definition of_arg (x : option string) : result t :=
  match x with
  | None => Raise TypeError
  | Some s =>
      let parts := filter is_part (split EmptyString s) in
      Ok (if prefix "/" s then "/" :: parts else parts)
  end.

Definition joinpath (p : t) (child : string) : t := p ++ [child].

(** [p.name]: the final part. *)
Definition name (p : t) : string := last p EmptyString.

(** [p.stem]: the name without its last suffix. *)
Definition stem (p : t) : string :=
  let n := name p in
  match rfind "."%char n with
  | Some i =>
      if Nat.ltb 0 i && Nat.ltb i (String.length n - 1) then substring 0 i n else n
  | None => n
  end.

(** [str(p)] *)
Fixpoint to_str (p : t) : string :=
  match p with
  | [] => "."
  | [a] => a
  | a :: rest => (if String.eqb a "/" then a else a ++ "/") ++ to_str rest
  end.
End Path.

(** ** The world the exporter runs in *)

(** Outcomes of the operating-system and library calls the exporter makes;
    every theorem about the exporter holds whatever these return. *)
Record World : Type := mkWorld {
  (** [p.mkdir(exist_ok=True)] *)
  mkdir_exist_ok : Path.t -> result unit;
  (** names of the entries of a directory, as [glob] scans them; a
      directory that does not exist has none *)
  scandir : Path.t -> result (list string);
  (** [open(p)] followed by reading every line, line ends kept *)
  read_lines : Path.t -> result (list string);
  (** [str(uuid.uuid4())] *)
  uuid4 : string;
  (** [to_xml_report_string(suites)] *)
  to_xml_report_string : list TestSuite.t -> result string;
  (** [open(p, "w")] *)
  open_w : Path.t -> result unit;
  (** [f.write(text)] and the closing of [f] *)
  write : Path.t -> string -> result unit
}.

Inductive log_record : Type :=
| Logged (msg : string)
| Suppressed (e : exn).

(** Computations that log and may raise. *)
Definition IO (A : Type) : Type := list log_record -> result A * list log_record.

Definition io_ret {A} (a : A) : IO A := fun l => (Ok a, l).

Definition io_bind {A B} (m : IO A) (f : A -> IO B) : IO B :=
  fun l =>
    match m l with
    | (Ok a, l') => f a l'
    | (Raise e, l') => (Raise e, l')
    end.

Definition lift {A} (r : result A) : IO A := fun l => (r, l).

Definition log_info (msg : string) : IO unit := fun l => (Ok tt, l ++ [Logged msg]).

Notation "x <~ c1 ;; c2" := (io_bind c1 (fun x => c2))
  (at level 61, c1 at next level, right associativity).

(** Modelled from the spec: [SuppressAndLog] of the [logger] module, which
    is not part of the sources at hand.  The spec describes it as a scoped
    wrapper that catches a given exception class around its body, logs the
    exception and swallows it. *)
Definition SuppressAndLog (cls : exn -> bool) (body : IO unit) : IO unit :=
  fun l =>
    match body l with
    | (Ok _, l') => (Ok tt, l')
    | (Raise e, l') =>
        if cls e then (Ok tt, l' ++ [Suppressed e]) else (Raise e, l')
    end.

(** Every exception is an instance of [BaseException]. *)
Definition BaseException (e : exn) : bool := true.

(** ** The exporter *)

Definition get_failure_cases (w : World) (log_file_name : Path.t)
    (suite_name : string) : IO (list TestCase.t) :=
  lines <~ lift (read_lines w log_file_name) ;;
  fail_cases <~ lift (process_lines suite_name lines (Dict.empty _)) ;;
  _ <~ log_info ("Found " ++ str_of_nat (List.length fail_cases) ++ " failures on "
                 ++ suite_name ++ " suite") ;;
  io_ret (flatten fail_cases).

(** [source_dir.glob(pattern)] for a pattern without directory parts. *)
Definition glob (w : World) (source_dir : Path.t) (pattern : string)
  : result (list Path.t) :=
  names <- scandir w source_dir ;;
  Ok (map (Path.joinpath source_dir) (filter (fnmatch pattern) names)).

Definition suite_name_of (file : Path.t) : string :=
  replace "k8s_" EmptyString (Path.stem file).

(** The loop that turns each globbed file into a suite. *)
Fixpoint build_suites (w : World) (files : list Path.t)
    (suites : list TestSuite.t) : IO (list TestSuite.t) :=
  match files with
  | [] => io_ret suites
  | file :: rest =>
      let suite_name := suite_name_of file in
      _ <~ log_info ("Creating test suite from " ++ suite_name ++ ".log") ;;
      test_cases <~ get_failure_cases w file suite_name ;;
      let timestamp :=
        match test_cases with
        | c :: _ => TestCase.timestamp c
        | [] => None
        end in
      build_suites w rest (suites ++ [TestSuite.mk suite_name test_cases timestamp])
  end.

Definition export_service_logs_to_junit_suites (w : World)
    (source_dir report_dir : Path.t) : IO unit :=
  files <~ lift (glob w source_dir "k8s_assisted-service*.log") ;;
  suites <~ build_suites w files [] ;;
  _ <~ log_info ("Generating xml file for " ++ str_of_nat (List.length suites) ++ " suites") ;;
  xml_report <~ lift (to_xml_report_string w suites) ;;
  let f := Path.joinpath report_dir
             ("junit_log_parser_" ++ substring 0 8 (uuid4 w) ++ ".xml") in
  _ <~ lift (open_w w f) ;;
  _ <~ log_info ("Exporting " ++ str_of_nat (List.length suites) ++ " suites xml-report with "
                 ++ str_of_nat (String.length xml_report) ++ " characters to "
                 ++ Path.to_str f) ;;
  lift (write w f xml_report).

(** The parsed command line: a flag that was not given is [None]. *)
Record Args : Type := mkArgs {
  src : option string;
  dst : option string
}.

(** The body of the [with] block of [main]. *)
Definition main_body (w : World) (args : Args) (report_dir : Path.t) : IO unit :=
  _ <~ log_info ("Parsing logs from `" ++ py_format (src args) ++ "` to `"
                 ++ Path.to_str report_dir ++ "`") ;;
  source_dir <~ lift (Path.of_arg (src args)) ;;
  export_service_logs_to_junit_suites w source_dir report_dir.

Definition main (w : World) (args : Args) : IO unit :=
  report_dir <~ lift (Path.of_arg (dst args)) ;;
  _ <~ lift (mkdir_exist_ok w report_dir) ;;
  SuppressAndLog BaseException (main_body w args report_dir).

(** Running the file as a script. *)
Definition script (w : World) (args : Args) : IO unit :=
  _ <~ log_info "Initializing attempt for creating JUNIT report from service logs" ;;
  main w args.

(** The exit status of the interpreter: 0 when the script returns, 1 when
    an exception escapes it. *)
Definition exit_code (r : result unit) : nat :=
  match r with
  | Ok _ => 0
  | Raise _ => 1
  end.

(** The groups every match of a pattern is bound to fill in. *)
Fixpoint required_groups (r : regex) : list string :=
  match r with
  | Lit _ | DotStar _ | Opt _ => []
  | Group (Some n) r' => n :: required_groups r'
  | Group None r' => required_groups r'
  | Cat r1 r2 => required_groups r1 ++ required_groups r2
  end.

(** What one line adds to the cases of its function: the value of
    [get_log_entry_case] when the loop body reaches it, nothing otherwise. *)
Definition emitted_by (suite_name : string) (fail_cases : fail_cases_t)
    (line : string) : list TestCase.t :=
  match re_match LOG_FORMAT line with
  | None => []
  | Some values =>
      match LogEntry_init LogEntry_default values with
      | Raise _ => []
      | Ok entry =>
          if negb (py_in (level entry) EXPORTED_LOG_LEVELS) then []
          else
            let fail_cases :=
              if negb (Dict.contains fail_cases (func entry))
              then Dict.setitem fail_cases (func entry) []
              else fail_cases in
            get_log_entry_case entry fail_cases suite_name
      end
  end.

(** Every case the lines of a file emit, in the order of the lines. *)
Fixpoint emitted_all (suite_name : string) (lines : list string)
    (fail_cases : fail_cases_t) : list TestCase.t :=
  match lines with
  | [] => []
  | line :: rest =>
      emitted_by suite_name fail_cases line ++
      match process_line suite_name fail_cases line with
      | Ok fail_cases' => emitted_all suite_name rest fail_cases'
      | Raise _ => []
      end
  end.

(** The parse of one line: [re.match] followed by [LogEntry(...)]. *)
Definition parse_line (line : string) : option (result LogEntry) :=
  match re_match LOG_FORMAT line with
  | None => None
  | Some values => Some (LogEntry_init LogEntry_default values)
  end.

(** A failing case with message [M] is on record for function [F]. *)
Definition recorded (fail_cases : fail_cases_t) (F : option string) (M : string) : bool :=
  existsb (has_message M) (Dict.get_default fail_cases F []).

(** A case named [F] whose first failure has message [M]. *)
Definition failing_with (F : option string) (M : string) (c : TestCase.t) : bool :=
  py_eqb (TestCase.name c) F && has_message M c.

(** Keys are distinct and every case is filed under its own name. *)
Definition grouped (fail_cases : fail_cases_t) : Prop :=
  NoDup (Dict.keys fail_cases) /\
  forall k cs, In (k, cs) fail_cases -> Forall (fun c => TestCase.name c = k) cs.

(** No two failing cases of one function share a message. *)
Definition unique_messages (fail_cases : fail_cases_t) : Prop :=
  forall k cs M, In (k, cs) fail_cases -> List.length (filter (has_message M) cs) <= 1.

Definition sample_error_entry : LogEntry :=
  mkLogEntry (Some "2021-01-01T10:00:00Z") (Some "error") (Some "boom")
    (Some "X") (Some "inventory.go:10") (Some "timeout").

Definition sample_fatal_entry : LogEntry :=
  mkLogEntry (Some "2021-01-01T10:00:05Z") (Some "fatal") (Some "boom")
    (Some "Install") (Some "main.go:7") None.

(** Sample lines: [log_line t lvl m f fl tail] is the line with the five
    leading fields and [tail] after the closing quote of [file]. *)
Definition log_line (t lvl m f fl tail : string) : string :=
  "time=" ++ dq ++ t ++ dq ++ " level=" ++ lvl ++ " msg=" ++ dq ++ m ++ dq
  ++ " func=" ++ f ++ " file=" ++ dq ++ fl ++ dq ++ tail ++ nl.

Definition error_field (e : string) : string := " error=" ++ dq ++ e ++ dq.

(** An "error" line, the cases collected after it, and a "fatal" line
    with the same func and message. *)
Definition sample_first_line : string := log_line "t1" "error" "boom" "X" "a.go:2" " ".

Definition sample_after_first : fail_cases_t :=
  [(Some "X",
    [TestCase.mk (Some "X") (Some "suite") None None None (Some "t1") None
       (Some "suite") []
       [mkCaseFailure ("boom" ++ nl) ("boom" ++ nl) (Some "error")] [];
     TestCase.init (Some "X") (Some "suite") (Some "suite") None])].

Definition sample_again_line : string := log_line "t2" "fatal" "boom" "X" "b.go:7" " ".

Definition sample_fatal_again : LogEntry :=
  mkLogEntry (Some "t2") (Some "fatal") (Some "boom") (Some "X") (Some "b.go:7") None.

(** The glob pattern of the service logs. *)
Definition SERVICE_LOGS : string := "k8s_assisted-service*.log".

(** [suite] is the suite the exporter builds for [file] when the file
    holds [lines]. *)
Definition suite_of_file (file : Path.t) (lines : list string) (suite : TestSuite.t) : Prop :=
  exists fc,
    process_lines (suite_name_of file) lines [] = Ok fc /\
    TestSuite.name suite = suite_name_of file /\
    TestSuite.test_cases suite = flatten fc /\
    grouped fc /\
    Permutation (flatten fc) (emitted_all (suite_name_of file) lines []) /\
    TestSuite.timestamp suite =
      match flatten fc with
      | c :: _ => TestCase.timestamp c
      | [] => None
      end.

(** A world with two service logs, one of them without any exported line,
    and one file of another kind. *)
Definition sample_world : World :=
  mkWorld
    (fun _ => Ok tt)
    (fun _ => Ok ["k8s_assisted-service-abc.log"; "notes.txt"; "k8s_assisted-service-quiet.log"])
    (fun p =>
       if String.eqb (Path.name p) "k8s_assisted-service-abc.log"
       then Ok [log_line "t1" "fatal" "boom" "Install" "main.go:7" " "]
       else Ok [log_line "t0" "info" "started" "main" "main.go:1" " "])
    "0f8fad5b-d9cb-469f-a165-70867728950e"
    (fun _ => Ok "<testsuites/>")
    (fun _ => Ok tt)
    (fun _ _ => Ok tt).

(** A fatal line that ends right after the closing quote of [file], and the
    same line with one space after that quote. *)
Definition install_line : string :=
  log_line "2021-01-01T10:00:05Z" "fatal" "boom" "Install" "main.go:7" EmptyString.

Definition install_line_spaced : string :=
  log_line "2021-01-01T10:00:05Z" "fatal" "boom" "Install" "main.go:7" " ".

(** [old in s] for strings. *)
Fixpoint occurs (old s : string) : bool :=
  prefix old s ||
  match s with
  | EmptyString => false
  | String _ t => occurs old t
  end.

(** The sample world with log files that cannot be read. *)
Definition sample_world_unreadable : World :=
  mkWorld (mkdir_exist_ok sample_world) (scandir sample_world)
    (fun _ => Raise PermissionError)
    (uuid4 sample_world) (to_xml_report_string sample_world)
    (open_w sample_world) (write sample_world).

(** The sample world with a destination whose parent directory is missing:
    [mkdir] does not create parents and raises [FileNotFoundError]. *)
Definition sample_world_no_parent : World :=
  mkWorld (fun _ => Raise FileNotFoundError) (scandir sample_world)
    (read_lines sample_world)
    (uuid4 sample_world) (to_xml_report_string sample_world)
    (open_w sample_world) (write sample_world).

Definition sample_args : Args := mkArgs (Some "/tmp/logs") (Some "/tmp/reports").

Definition sample_args_no_parent : Args :=
  mkArgs (Some "/tmp/logs") (Some "/missing/parent/reports").

(** Text without a line feed: what [.*] can take. *)
Fixpoint no_LF (s : string) : bool :=
  match s with
  | EmptyString => true
  | String c t => negb (Ascii.eqb c LF) && no_LF t
  end.

(** [matches r u env env']: the pattern [r] can take exactly the text [u],
    turning the captures [env] into [env']. *)
Fixpoint matches (r : regex) (u : string) (env env' : captures) : Prop :=
  match r with
  | Lit p => u = p /\ env' = env
  | DotStar _ => no_LF u = true /\ env' = env
  | Group n r' => exists env1, matches r' u env env1 /\ env' = record n u env1
  | Cat r1 r2 =>
      exists u1 u2 env1,
        u = (u1 ++ u2)%string /\ matches r1 u1 env env1 /\ matches r2 u2 env1 env'
  | Opt r' => matches r' u env env' \/ (u = EmptyString /\ env' = env)
  end.

(** The failing case built for an entry. *)
Definition failing_case (entry : LogEntry) (suite_name : string) : TestCase.t :=
  TestCase.mk (func entry) (Some suite_name) None None None (time entry) None
    (Some suite_name) []
    [mkCaseFailure (entry_message entry) (entry_message entry) (level entry)] [].

(** No line of [lines] has an exported level. *)
Definition nothing_exported (lines : list string) : Prop :=
  forall line entry,
    In line lines -> parse_line line = Some (Ok entry) ->
    py_in (level entry) EXPORTED_LOG_LEVELS = false.

(** What every case of a suite looks like. *)
Definition case_of_suite (suite_name : string) (c : TestCase.t) : Prop :=
  TestCase.classname c = Some suite_name /\
  TestCase.category c = Some suite_name /\
  (exists f, TestCase.name c = Some f) /\
  TestCase.errors c = [] /\
  TestCase.skipped c = [] /\
  (TestCase.failures c = [] \/
   exists M lvl,
     TestCase.failures c = [mkCaseFailure M M (Some lvl)] /\
     In lvl EXPORTED_LOG_LEVELS).

(** A list of cases made of blocks: a fatal failing case alone, or an
    error failing case followed by its sibling without failure. *)
Inductive paired : list TestCase.t -> Prop :=
| paired_nil : paired []
| paired_fatal c f rest :
    TestCase.failures c = [f] -> type f = Some "fatal" ->
    paired rest -> paired (c :: rest)
| paired_error c f s rest :
    TestCase.failures c = [f] -> type f = Some "error" ->
    TestCase.failures s = [] ->
    TestCase.name s = TestCase.name c ->
    TestCase.timestamp s = None ->
    paired rest -> paired (c :: s :: rest).

Definition without_failure (c : TestCase.t) : bool :=
  match TestCase.failures c with
  | [] => true
  | _ :: _ => false
  end.

Definition failing_of_type (lvl : string) (c : TestCase.t) : bool :=
  match TestCase.failures c with
  | f :: _ => py_eqb (type f) (Some lvl)
  | [] => false
  end.

(** The world [w] with another way of reading files. *)
Definition with_read_lines (w : World) (r : Path.t -> result (list string)) : World :=
  mkWorld (mkdir_exist_ok w) (scandir w) r (uuid4 w) (to_xml_report_string w)
    (open_w w) (write w).

(** The file the report is written to. *)
Definition report_file (w : World) (report_dir : Path.t) : Path.t :=
  Path.joinpath report_dir ("junit_log_parser_" ++ substring 0 8 (uuid4 w) ++ ".xml").

(** Text in which the character [a] does not occur. *)
Fixpoint lacks (a : ascii) (s : string) : bool :=
  match s with
  | EmptyString => true
  | String c t => negb (Ascii.eqb c a) && lacks a t
  end.

Definition DQ : ascii := "034"%char.
Definition SP : ascii := " "%char.

(** * Properties *)

Unset Implicit Arguments.

(** ** Equality tests *)

Lemma py_eqb_eq (a b : option string) : py_eqb a b = true <-> a = b.
Proof.
  destruct a as [x|], b as [y|]; simpl; split; intro H;
    try discriminate; try reflexivity.
  - apply String.eqb_eq in H. now subst.
  - injection H as ->. apply String.eqb_refl.
Qed.

Lemma py_eqb_refl (a : option string) : py_eqb a a = true.
Proof. now apply py_eqb_eq. Qed.

Lemma py_eqb_neq (a b : option string) : py_eqb a b = false <-> a <> b.
Proof.
  split.
  - intros H E. apply py_eqb_eq in E. congruence.
  - intro N. destruct (py_eqb a b) eqn:E; [|reflexivity].
    apply py_eqb_eq in E. contradiction.
Qed.

(** ** The matcher *)

Lemma lookup_record_same (n : string) (v : string) (env : captures) :
  lookup n (record (Some n) v env) = Some v.
Proof. simpl. now rewrite String.eqb_refl. Qed.

Lemma lookup_record_keeps (o : option string) (n v : string) (env : captures) :
  lookup n env <> None -> lookup n (record o v env) <> None.
Proof.
  intro H. destruct o as [m|]; simpl; [|exact H].
  destruct (String.eqb m n); [discriminate | exact H].
Qed.

Lemma dotstar_calls (g : bool) (k : string -> option captures) (s : string) (e : captures) :
  dotstar g k s = Some e -> exists s', k s' = Some e.
Proof.
  induction s as [|c t IH]; simpl.
  - intro H. now exists EmptyString.
  - destruct (Ascii.eqb c LF).
    + intro H. now exists (String c t).
    + destruct g.
      * destruct (dotstar true k t) as [e'|] eqn:E.
        -- intro H. injection H as <-. now apply IH.
        -- intro H. now exists (String c t).
      * destruct (k (String c t)) as [e'|] eqn:E.
        -- intro H. injection H as <-. now exists (String c t).
        -- exact IH.
Qed.

(** A successful match reaches its continuation with every required group
    of the pattern captured, and with nothing captured before lost. *)
Lemma rmatch_calls (r : regex) :
  forall s env k e,
    rmatch r s env k = Some e ->
    exists s' env',
      k s' env' = Some e /\
      (forall n, In n (required_groups r) -> lookup n env' <> None) /\
      (forall n, lookup n env <> None -> lookup n env' <> None).
Proof.
  induction r as [p | g | o r IH | r1 IH1 r2 IH2 | r IH]; intros s env k e H; simpl in H.
  - destruct (strip_prefix p s) as [s'|]; [|discriminate].
    exists s', env. simpl. tauto.
  - apply dotstar_calls in H as [s' H]. exists s', env. simpl. tauto.
  - apply IH in H as (s' & env' & Hk & Hreq & Hkeep).
    exists s', (record o (consumed s s') env'). split; [exact Hk|]. split.
    + intros n Hn. destruct o as [m|]; simpl in Hn.
      * destruct Hn as [<- | Hn].
        -- rewrite lookup_record_same. discriminate.
        -- apply lookup_record_keeps. now apply Hreq.
      * simpl. now apply Hreq.
    + intros n Hn. apply lookup_record_keeps. now apply Hkeep.
  - apply IH1 in H as (s1 & env1 & Hk1 & Hreq1 & Hkeep1).
    apply IH2 in Hk1 as (s2 & env2 & Hk2 & Hreq2 & Hkeep2).
    exists s2, env2. split; [exact Hk2|]. split.
    + intros n Hn. simpl in Hn. apply in_app_or in Hn as [Hn | Hn].
      * apply Hkeep2. now apply Hreq1.
      * now apply Hreq2.
    + intros n Hn. apply Hkeep2. now apply Hkeep1.
  - destruct (rmatch r s env k) as [e'|] eqn:E.
    + injection H as <-. apply IH in E as (s' & env' & Hk & _ & Hkeep).
      exists s', env'. simpl. tauto.
    + exists s, env. simpl. tauto.
Qed.

(** A line that matches [LOG_FORMAT] gives a [groupdict()] with the six
    names of the pattern, the first five bound to text. *)
Lemma re_match_LOG_FORMAT (line : string) (values : list (string * option string)) :
  re_match LOG_FORMAT line = Some values ->
  exists t l m f fl err,
    values = [("time", Some t); ("level", Some l); ("msg", Some m);
              ("func", Some f); ("file", Some fl); ("error", err)].
Proof.
  unfold re_match. intro H.
  destruct (rmatch LOG_FORMAT line [] (fun _ env => Some env)) as [env|] eqn:E;
    [|discriminate].
  injection H as <-.
  apply rmatch_calls in E as (s' & env' & Hk & Hreq & _).
  injection Hk as ->.
  assert (Ht := Hreq "time"). assert (Hl := Hreq "level").
  assert (Hm := Hreq "msg"). assert (Hf := Hreq "func").
  assert (Hfl := Hreq "file").
  change (group_names LOG_FORMAT) with ["time"; "level"; "msg"; "func"; "file"; "error"].
  change (required_groups LOG_FORMAT) with ["time"; "level"; "msg"; "func"; "file"] in *.
  simpl map.
  destruct (lookup "time" env) as [t|]; [|exfalso; apply Ht; simpl; tauto].
  destruct (lookup "level" env) as [l|]; [|exfalso; apply Hl; simpl; tauto].
  destruct (lookup "msg" env) as [m|]; [|exfalso; apply Hm; simpl; tauto].
  destruct (lookup "func" env) as [f|]; [|exfalso; apply Hf; simpl; tauto].
  destruct (lookup "file" env) as [fl|]; [|exfalso; apply Hfl; simpl; tauto].
  now exists t, l, m, f, fl, (lookup "error" env).
Qed.

(** Building the entry from a match never raises, and the entry has its
    five leading fields set. *)
Lemma parse_line_entry (line : string) (r : result LogEntry) :
  parse_line line = Some r ->
  exists t l m f fl err,
    r = Ok (mkLogEntry (Some t) (Some l) (Some m) (Some f) (Some fl) err).
Proof.
  unfold parse_line. destruct (re_match LOG_FORMAT line) as [values|] eqn:E; [|discriminate].
  intro H. injection H as <-.
  apply re_match_LOG_FORMAT in E as (t & l & m & f & fl & err & ->).
  now exists t, l, m, f, fl, err.
Qed.

(** ** Cases built from one entry *)

Lemma get_log_entry_case_duplicate entry fail_cases suite_name :
  is_duplicate_entry entry (entry_message entry) fail_cases = true ->
  get_log_entry_case entry fail_cases suite_name = [].
Proof. unfold get_log_entry_case. now intros ->. Qed.

Lemma get_log_entry_case_fresh entry fail_cases suite_name :
  is_duplicate_entry entry (entry_message entry) fail_cases = false ->
  get_log_entry_case entry fail_cases suite_name =
  let failing :=
    TestCase.mk (func entry) (Some suite_name) None None None (time entry) None
      (Some suite_name) []
      [mkCaseFailure (entry_message entry) (entry_message entry) (level entry)] [] in
  if py_eqb (level entry) (Some "fatal") then [failing]
  else [failing; TestCase.init (func entry) (Some suite_name) (Some suite_name) None].
Proof.
  unfold get_log_entry_case. intros ->. cbn.
  now destruct (py_eqb (level entry) (Some "fatal")).
Qed.

Lemma entry_message_msg entry m :
  msg entry = Some m ->
  entry_message entry =
  (m ++ nl ++ match error entry with Some e => e | None => EmptyString end)%string.
Proof.
  unfold entry_message. intros ->. simpl.
  now destruct (error entry) as [[|c e]|].
Qed.

(** C3: a non-duplicate entry with level "error" and func X yields exactly
    two cases named X, the first carrying one failure and the second (the
    flaky sibling) carrying none; a non-duplicate entry with level "fatal"
    yields exactly one case, carrying one failure, and no sibling. *)
Theorem error_two_cases_fatal_one_case :
  forall entry fail_cases suite_name X,
    func entry = Some X ->
    is_duplicate_entry entry (entry_message entry) fail_cases = false ->
    (level entry = Some "error" ->
     exists failing flaky,
       get_log_entry_case entry fail_cases suite_name = [failing; flaky] /\
       TestCase.name failing = Some X /\ TestCase.name flaky = Some X /\
       List.length (TestCase.failures failing) = 1 /\
       TestCase.failures flaky = []) /\
    (level entry = Some "fatal" ->
     exists failing,
       get_log_entry_case entry fail_cases suite_name = [failing] /\
       TestCase.name failing = Some X /\
       List.length (TestCase.failures failing) = 1).
Proof.
  intros entry fail_cases suite_name X HX Hfresh.
  rewrite (get_log_entry_case_fresh _ _ _ Hfresh), HX. cbn zeta.
  split; intros ->; simpl; eauto 10.
Qed.

Lemma error_two_cases_fatal_one_case_witness :
  (exists failing flaky,
     get_log_entry_case sample_error_entry [] "suite" = [failing; flaky] /\
     TestCase.name failing = Some "X" /\ TestCase.name flaky = Some "X" /\
     List.length (TestCase.failures failing) = 1 /\
     TestCase.failures flaky = []) /\
  (exists failing,
     get_log_entry_case sample_fatal_entry [] "suite" = [failing] /\
     TestCase.name failing = Some "Install" /\
     List.length (TestCase.failures failing) = 1).
Proof.
  split.
  - apply (error_two_cases_fatal_one_case sample_error_entry [] "suite" "X");
      reflexivity.
  - apply (error_two_cases_fatal_one_case sample_fatal_entry [] "suite" "Install");
      reflexivity.
Defined.

(** C7: an entry that is not suppressed yields a failing case named after
    its func, with the suite name as classname and the entry's time as
    timestamp, carrying exactly one failure; the failure's message and
    output are both msg, a line feed, and the error text when there is one,
    and its type is the entry's level. *)
Theorem fresh_entry_failing_case :
  forall entry fail_cases suite_name m,
    msg entry = Some m ->
    is_duplicate_entry entry (entry_message entry) fail_cases = false ->
    let composed :=
      (m ++ nl ++ match error entry with Some e => e | None => EmptyString end)%string in
    exists failing rest,
      get_log_entry_case entry fail_cases suite_name = failing :: rest /\
      TestCase.name failing = func entry /\
      TestCase.classname failing = Some suite_name /\
      TestCase.timestamp failing = time entry /\
      TestCase.failures failing = [mkCaseFailure composed composed (level entry)].
Proof.
  intros entry fail_cases suite_name m Hm Hfresh composed.
  rewrite (get_log_entry_case_fresh _ _ _ Hfresh). cbn zeta.
  rewrite (entry_message_msg _ _ Hm). fold composed.
  destruct (py_eqb (level entry) (Some "fatal")); eexists; eexists;
    (split; [reflexivity|]); simpl; auto.
Qed.

Lemma fresh_entry_failing_case_witness :
  exists failing rest,
    get_log_entry_case sample_error_entry [] "suite" = failing :: rest /\
    TestCase.name failing = Some "X" /\
    TestCase.classname failing = Some "suite" /\
    TestCase.timestamp failing = Some "2021-01-01T10:00:00Z" /\
    TestCase.failures failing =
      [mkCaseFailure ("boom" ++ nl ++ "timeout")%string ("boom" ++ nl ++ "timeout")%string
         (Some "error")].
Proof.
  apply (fresh_entry_failing_case sample_error_entry [] "suite" "boom");
    reflexivity.
Defined.

(** C10: the flaky sibling emitted for a non-fatal entry has no timestamp,
    while the failing case has the entry's time; it has no failure, error
    or skip record; and of its attributes only name, classname and
    category are set, each equal to the failing case's. *)
Theorem flaky_sibling_bare :
  forall entry fail_cases suite_name,
    is_duplicate_entry entry (entry_message entry) fail_cases = false ->
    level entry <> Some "fatal" ->
    exists failing flaky,
      get_log_entry_case entry fail_cases suite_name = [failing; flaky] /\
      TestCase.timestamp flaky = None /\
      TestCase.timestamp failing = time entry /\
      TestCase.failures flaky = [] /\
      TestCase.errors flaky = [] /\
      TestCase.skipped flaky = [] /\
      TestCase.elapsed_sec flaky = None /\
      TestCase.stdout flaky = None /\
      TestCase.stderr flaky = None /\
      TestCase.status flaky = None /\
      TestCase.name flaky = TestCase.name failing /\
      TestCase.classname flaky = TestCase.classname failing /\
      TestCase.category flaky = TestCase.category failing /\
      TestCase.name flaky = func entry /\
      TestCase.classname flaky = Some suite_name /\
      TestCase.category flaky = Some suite_name.
Proof.
  intros entry fail_cases suite_name Hfresh Hlevel.
  rewrite (get_log_entry_case_fresh _ _ _ Hfresh). cbn zeta.
  apply py_eqb_neq in Hlevel. rewrite Hlevel.
  eexists; eexists. split; [reflexivity|]. simpl. repeat split.
Qed.

Lemma flaky_sibling_bare_witness :
  exists failing flaky,
    get_log_entry_case sample_error_entry [] "suite" = [failing; flaky] /\
    TestCase.timestamp flaky = None /\
    TestCase.timestamp failing = Some "2021-01-01T10:00:00Z" /\
    TestCase.failures flaky = [] /\
    TestCase.errors flaky = [] /\
    TestCase.skipped flaky = [] /\
    TestCase.elapsed_sec flaky = None /\
    TestCase.stdout flaky = None /\
    TestCase.stderr flaky = None /\
    TestCase.status flaky = None /\
    TestCase.name flaky = TestCase.name failing /\
    TestCase.classname flaky = TestCase.classname failing /\
    TestCase.category flaky = TestCase.category failing /\
    TestCase.name flaky = Some "X" /\
    TestCase.classname flaky = Some "suite" /\
    TestCase.category flaky = Some "suite".
Proof.
  apply (flaky_sibling_bare sample_error_entry [] "suite");
    [reflexivity | discriminate].
Defined.

(** ** Dictionaries *)

Section DictFacts.
Variable V : Type.
Implicit Types (d : Dict.t V) (k : option string) (v : V).

Lemma get_setitem_same d k v : Dict.get (Dict.setitem d k v) k = Some v.
Proof.
  induction d as [|[k' v'] d IH]; simpl.
  - now rewrite py_eqb_refl.
  - destruct (py_eqb k' k) eqn:E; simpl; rewrite E; [reflexivity | exact IH].
Qed.

Lemma get_setitem_other d k k' v :
  k <> k' -> Dict.get (Dict.setitem d k v) k' = Dict.get d k'.
Proof.
  intro N. induction d as [|[k0 v0] d IH]; simpl.
  - apply py_eqb_neq in N. now rewrite N.
  - destruct (py_eqb k0 k) eqn:E; simpl.
    + apply py_eqb_eq in E. subst k0.
      apply py_eqb_neq in N. now rewrite N.
    + now rewrite IH.
Qed.

Lemma setitem_same_value d k v : Dict.get d k = Some v -> Dict.setitem d k v = d.
Proof.
  induction d as [|[k' v'] d IH]; simpl; [discriminate|].
  destruct (py_eqb k' k) eqn:E.
  - now intros [= ->].
  - intro H. now rewrite IH.
Qed.

Lemma setitem_setitem d k v v' :
  Dict.setitem (Dict.setitem d k v) k v' = Dict.setitem d k v'.
Proof.
  induction d as [|[k0 v0] d IH]; simpl.
  - now rewrite py_eqb_refl.
  - destruct (py_eqb k0 k) eqn:E; simpl; rewrite E; [reflexivity | now rewrite IH].
Qed.

Lemma get_In d k v : Dict.get d k = Some v -> In (k, v) d.
Proof.
  induction d as [|[k' v'] d IH]; simpl; [discriminate|].
  destruct (py_eqb k' k) eqn:E.
  - apply py_eqb_eq in E. intros [= ->]. left. now subst.
  - intro H. right. now apply IH.
Qed.

Lemma get_None_keys d k : Dict.get d k = None -> ~ In k (Dict.keys d).
Proof.
  induction d as [|[k' v'] d IH]; simpl; [tauto|].
  destruct (py_eqb k' k) eqn:E; [discriminate|].
  intros H [Heq | Hin]; [|now apply IH].
  apply py_eqb_neq in E. contradiction.
Qed.

Lemma In_get d k v : NoDup (Dict.keys d) -> In (k, v) d -> Dict.get d k = Some v.
Proof.
  induction d as [|[k' v'] d IH]; simpl; [tauto|].
  intros Hnd [Heq | Hin].
  - injection Heq as -> ->. now rewrite py_eqb_refl.
  - inversion Hnd as [|? ? Hnotin Hnd']; subst.
    destruct (py_eqb k' k) eqn:E.
    + apply py_eqb_eq in E. subst k'. exfalso. apply Hnotin.
      unfold Dict.keys. change k with (fst (k, v)). now apply in_map.
    + now apply IH.
Qed.

Lemma keys_setitem d k v :
  Dict.keys (Dict.setitem d k v) =
  if Dict.contains d k then Dict.keys d else Dict.keys d ++ [k].
Proof.
  unfold Dict.contains. induction d as [|[k' v'] d IH]; simpl; [reflexivity|].
  destruct (py_eqb k' k) eqn:E; simpl; [reflexivity|].
  rewrite IH. now destruct (Dict.get d k).
Qed.

Lemma NoDup_keys_setitem d k v :
  NoDup (Dict.keys d) -> NoDup (Dict.keys (Dict.setitem d k v)).
Proof.
  intro Hnd. rewrite keys_setitem. unfold Dict.contains.
  destruct (Dict.get d k) eqn:E; [exact Hnd|].
  apply NoDup_app; [exact Hnd | repeat constructor; simpl; tauto |].
  intros x Hx [<- | []]. revert Hx. now apply get_None_keys.
Qed.

(** The bindings of [setitem]: the binding of [k] is replaced where it
    stands, or added last. *)
Lemma setitem_split d k v :
  (exists d1 d2 v0, d = d1 ++ (k, v0) :: d2 /\ Dict.get d k = Some v0 /\
                    Dict.setitem d k v = d1 ++ (k, v) :: d2)
  \/ (Dict.get d k = None /\ Dict.setitem d k v = d ++ [(k, v)]).
Proof.
  induction d as [|[k' v'] d IH]; simpl.
  - right. now split.
  - destruct (py_eqb k' k) eqn:E.
    + apply py_eqb_eq in E. subst k'. left. now exists [], d, v'.
    + destruct IH as [(d1 & d2 & v0 & -> & Hg & Hs) | [Hg Hs]].
      * left. exists ((k', v') :: d1), d2, v0. simpl. now rewrite Hs.
      * right. now rewrite Hs.
Qed.
End DictFacts.

(** ** One line *)

Lemma is_duplicate_entry_get entry m (fc fc' : fail_cases_t) :
  Dict.get_default fc (func entry) [] = Dict.get_default fc' (func entry) [] ->
  is_duplicate_entry entry m fc = is_duplicate_entry entry m fc'.
Proof. unfold is_duplicate_entry. now intros ->. Qed.

Lemma get_log_entry_case_get entry suite_name (fc fc' : fail_cases_t) :
  Dict.get_default fc (func entry) [] = Dict.get_default fc' (func entry) [] ->
  get_log_entry_case entry fc suite_name = get_log_entry_case entry fc' suite_name.
Proof.
  intro H. unfold get_log_entry_case.
  now rewrite (is_duplicate_entry_get entry (entry_message entry) fc fc' H).
Qed.

Lemma process_line_unparsed suite_name fc line :
  parse_line line = None ->
  process_line suite_name fc line = Ok fc /\ emitted_by suite_name fc line = [].
Proof.
  unfold parse_line, process_line, emitted_by.
  now destruct (re_match LOG_FORMAT line).
Qed.

Lemma process_line_other_level suite_name fc line entry :
  parse_line line = Some (Ok entry) ->
  py_in (level entry) EXPORTED_LOG_LEVELS = false ->
  process_line suite_name fc line = Ok fc /\ emitted_by suite_name fc line = [].
Proof.
  unfold parse_line, process_line, emitted_by.
  destruct (re_match LOG_FORMAT line) as [values|]; [|discriminate].
  intros [= ->] Hlevel. cbn [rbind]. now rewrite Hlevel.
Qed.

(** A line with an exported level: a duplicate leaves the dictionary as it
    is, any other entry has its cases added after those of its func. *)
Lemma process_line_exported suite_name fc line entry :
  parse_line line = Some (Ok entry) ->
  py_in (level entry) EXPORTED_LOG_LEVELS = true ->
  process_line suite_name fc line =
    Ok (if is_duplicate_entry entry (entry_message entry) fc then fc
        else Dict.setitem fc (func entry)
               (Dict.get_default fc (func entry) [] ++
                get_log_entry_case entry fc suite_name)) /\
  emitted_by suite_name fc line = get_log_entry_case entry fc suite_name.
Proof.
  unfold parse_line, process_line, emitted_by.
  destruct (re_match LOG_FORMAT line) as [values|]; [|discriminate].
  intros [= ->] Hlevel. cbn [rbind]. rewrite Hlevel. cbn [negb].
  unfold Dict.contains, Dict.getitem, Dict.get_default.
  destruct (Dict.get fc (func entry)) as [old|] eqn:Hget; cbn [negb].
  - rewrite Hget. cbn [rbind]. split; [|reflexivity].
    destruct (is_duplicate_entry entry (entry_message entry) fc) eqn:Hdup.
    + rewrite (get_log_entry_case_duplicate _ _ _ Hdup), app_nil_r.
      now rewrite setitem_same_value.
    + reflexivity.
  - rewrite get_setitem_same. cbn [rbind].
    assert (Hsame : Dict.get_default (Dict.setitem fc (func entry) []) (func entry) []
                    = Dict.get_default fc (func entry) []).
    { unfold Dict.get_default. now rewrite get_setitem_same, Hget. }
    rewrite (get_log_entry_case_get entry suite_name _ _ Hsame).
    split; [|reflexivity].
    rewrite setitem_setitem.
    assert (Hdup : is_duplicate_entry entry (entry_message entry) fc = false).
    { unfold is_duplicate_entry, Dict.get_default. now rewrite Hget. }
    now rewrite Hdup.
Qed.

(** The three ways one line can go. *)
Lemma parse_line_cases line :
  parse_line line = None \/ exists entry, parse_line line = Some (Ok entry).
Proof.
  destruct (parse_line line) as [r|] eqn:E; [right | now left].
  destruct (parse_line_entry _ _ E) as (t & l & m & f & fl & err & ->). eauto.
Qed.

Lemma process_line_total suite_name fc line :
  exists fc', process_line suite_name fc line = Ok fc'.
Proof.
  destruct (parse_line_cases line) as [Hnone | [entry Hsome]].
  - exists fc. exact (proj1 (process_line_unparsed suite_name fc _ Hnone)).
  - destruct (py_in (level entry) EXPORTED_LOG_LEVELS) eqn:Hlevel.
    + eexists. exact (proj1 (process_line_exported suite_name fc _ _ Hsome Hlevel)).
    + exists fc. exact (proj1 (process_line_other_level suite_name fc _ _ Hsome Hlevel)).
Qed.

Lemma process_lines_total suite_name lines :
  forall fc, exists fc', process_lines suite_name lines fc = Ok fc'.
Proof.
  induction lines as [|line rest IH]; intro fc; simpl.
  - now exists fc.
  - destruct (process_line_total suite_name fc line) as [fc1 ->]. simpl. apply IH.
Qed.

Lemma process_lines_app suite_name l1 l2 fc :
  process_lines suite_name (l1 ++ l2) fc =
  (fc1 <- process_lines suite_name l1 fc ;; process_lines suite_name l2 fc1).
Proof.
  revert fc. induction l1 as [|line rest IH]; intro fc; simpl; [reflexivity|].
  destruct (process_line suite_name fc line); simpl; [apply IH | reflexivity].
Qed.

Lemma py_in_exported (l : option string) :
  py_in l EXPORTED_LOG_LEVELS = true <-> l = Some "fatal" \/ l = Some "error".
Proof.
  unfold py_in, EXPORTED_LOG_LEVELS. simpl. rewrite !orb_true_iff, !py_eqb_eq.
  intuition discriminate.
Qed.

(** C6: processing a line never raises; a line that does not match the
    format is skipped with no entry built and nothing added; a matching
    line whose level is neither "fatal" nor "error" is dropped with nothing
    added; and a line adds a case, or changes the dictionary at all, only
    if it matches and its level is "fatal" or "error". *)
Theorem line_never_raises_and_contributes_only_if_exported :
  forall suite_name fail_cases line,
    (exists fail_cases', process_line suite_name fail_cases line = Ok fail_cases') /\
    (forall e, parse_line line <> Some (Raise e)) /\
    (re_match LOG_FORMAT line = None ->
     parse_line line = None /\
     process_line suite_name fail_cases line = Ok fail_cases /\
     emitted_by suite_name fail_cases line = []) /\
    (forall entry,
       parse_line line = Some (Ok entry) ->
       level entry <> Some "fatal" -> level entry <> Some "error" ->
       process_line suite_name fail_cases line = Ok fail_cases /\
       emitted_by suite_name fail_cases line = []) /\
    (emitted_by suite_name fail_cases line <> [] \/
     process_line suite_name fail_cases line <> Ok fail_cases ->
     exists values entry,
       re_match LOG_FORMAT line = Some values /\
       parse_line line = Some (Ok entry) /\
       (level entry = Some "fatal" \/ level entry = Some "error")).
Proof.
  intros suite_name fc line.
  split; [apply process_line_total|].
  split.
  { intros e H. destruct (parse_line_entry _ _ H) as (? & ? & ? & ? & ? & ? & ?).
    discriminate. }
  split.
  { intro Hnone.
    assert (Hp : parse_line line = None) by (unfold parse_line; now rewrite Hnone).
    split; [exact Hp|]. now apply process_line_unparsed. }
  split.
  { intros entry Hp Hf He. apply (process_line_other_level suite_name fc _ _ Hp).
    destruct (py_in (level entry) EXPORTED_LOG_LEVELS) eqn:E; [|reflexivity].
    apply py_in_exported in E. tauto. }
  intro Hadds.
  destruct (parse_line_cases line) as [Hnone | [entry Hsome]].
  - destruct (process_line_unparsed suite_name fc _ Hnone) as [H1 H2]. tauto.
  - destruct (py_in (level entry) EXPORTED_LOG_LEVELS) eqn:Hlevel.
    + unfold parse_line in Hsome.
      destruct (re_match LOG_FORMAT line) as [values|] eqn:Hre; [|discriminate].
      exists values, entry. split; [reflexivity|]. split.
      * unfold parse_line. now rewrite Hre.
      * now apply py_in_exported.
    + destruct (process_line_other_level suite_name fc _ _ Hsome Hlevel) as [H1 H2]. tauto.
Qed.

Lemma line_never_raises_and_contributes_only_if_exported_witness :
  (exists fail_cases', process_line "suite" [] "not a log line" = Ok fail_cases') /\
  (parse_line "not a log line" = None /\
   process_line "suite" [] "not a log line" = Ok [] /\
   emitted_by "suite" [] "not a log line" = []) /\
  (process_line "suite" [] (log_line "t0" "info" "started" "main" "main.go:1" " ") = Ok [] /\
   emitted_by "suite" [] (log_line "t0" "info" "started" "main" "main.go:1" " ") = []) /\
  (exists values entry,
     re_match LOG_FORMAT (log_line "t1" "error" "boom" "X" "a.go:2" " ") = Some values /\
     parse_line (log_line "t1" "error" "boom" "X" "a.go:2" " ") = Some (Ok entry) /\
     (level entry = Some "fatal" \/ level entry = Some "error")).
Proof.
  split; [|split; [|split]].
  - apply (line_never_raises_and_contributes_only_if_exported "suite" [] "not a log line").
  - apply (line_never_raises_and_contributes_only_if_exported "suite" [] "not a log line").
    reflexivity.
  - destruct (line_never_raises_and_contributes_only_if_exported "suite" []
                (log_line "t0" "info" "started" "main" "main.go:1" " "))
      as (_ & _ & _ & H & _).
    apply (H (mkLogEntry (Some "t0") (Some "info") (Some "started") (Some "main")
                (Some "main.go:1") None));
      [reflexivity | discriminate | discriminate].
  - destruct (line_never_raises_and_contributes_only_if_exported "suite" []
                (log_line "t1" "error" "boom" "X" "a.go:2" " "))
      as (_ & _ & _ & _ & H).
    apply H. left. vm_compute. discriminate.
Defined.

(** ** What is on record stays on record *)

Lemma get_default_setitem (fc : fail_cases_t) k k' v :
  Dict.get_default (Dict.setitem fc k v) k' [] =
  if py_eqb k k' then v else Dict.get_default fc k' [].
Proof.
  unfold Dict.get_default. destruct (py_eqb k k') eqn:E.
  - apply py_eqb_eq in E. subst k'. now rewrite get_setitem_same.
  - apply py_eqb_neq in E. now rewrite get_setitem_other.
Qed.

Lemma recorded_is_duplicate entry fc :
  is_duplicate_entry entry (entry_message entry) fc =
  recorded fc (func entry) (entry_message entry).
Proof. reflexivity. Qed.

Lemma recorded_process_line suite_name fc fc' line F M :
  process_line suite_name fc line = Ok fc' ->
  recorded fc F M = true -> recorded fc' F M = true.
Proof.
  intros Hstep Hrec.
  destruct (parse_line_cases line) as [Hnone | [entry Hsome]].
  - destruct (process_line_unparsed suite_name fc _ Hnone) as [H _]. congruence.
  - destruct (py_in (level entry) EXPORTED_LOG_LEVELS) eqn:Hlevel.
    + destruct (process_line_exported suite_name fc _ _ Hsome Hlevel) as [H _].
      rewrite H in Hstep. injection Hstep as <-.
      destruct (is_duplicate_entry entry (entry_message entry) fc); [exact Hrec|].
      unfold recorded in *. rewrite get_default_setitem.
      destruct (py_eqb (func entry) F) eqn:E; [|exact Hrec].
      apply py_eqb_eq in E. subst F. rewrite existsb_app, Hrec. reflexivity.
    + destruct (process_line_other_level suite_name fc _ _ Hsome Hlevel) as [H _].
      congruence.
Qed.

Lemma recorded_process_lines suite_name lines F M :
  forall fc fc',
    process_lines suite_name lines fc = Ok fc' ->
    recorded fc F M = true -> recorded fc' F M = true.
Proof.
  induction lines as [|line rest IH]; intros fc fc'; simpl.
  - now intros [= <-].
  - destruct (process_line suite_name fc line) as [fc1|] eqn:E; simpl; [|discriminate].
    intros Hrest Hrec. apply (IH fc1 fc' Hrest).
    now apply (recorded_process_line _ _ _ _ F M E).
Qed.

(** Once an entry with an exported level has been processed, its func and
    message are on record. *)
Lemma recorded_after_entry suite_name fc fc' line entry :
  parse_line line = Some (Ok entry) ->
  py_in (level entry) EXPORTED_LOG_LEVELS = true ->
  process_line suite_name fc line = Ok fc' ->
  recorded fc' (func entry) (entry_message entry) = true.
Proof.
  intros Hsome Hlevel Hstep.
  destruct (process_line_exported suite_name fc _ _ Hsome Hlevel) as [H _].
  rewrite H in Hstep. injection Hstep as <-.
  destruct (is_duplicate_entry entry (entry_message entry) fc) eqn:Hdup; [exact Hdup|].
  unfold recorded. rewrite get_default_setitem, py_eqb_refl, existsb_app.
  rewrite (get_log_entry_case_fresh _ _ _ Hdup). cbn zeta.
  apply orb_true_iff. right.
  destruct (py_eqb (level entry) (Some "fatal")); simpl;
    unfold has_message; simpl; now rewrite String.eqb_refl.
Qed.

(** An entry whose func and message are on record adds nothing, whatever
    its level. *)
Lemma recorded_line_adds_nothing suite_name fc line entry :
  parse_line line = Some (Ok entry) ->
  recorded fc (func entry) (entry_message entry) = true ->
  process_line suite_name fc line = Ok fc /\
  emitted_by suite_name fc line = [] /\
  get_log_entry_case entry fc suite_name = [].
Proof.
  intros Hsome Hrec.
  assert (Hcase : get_log_entry_case entry fc suite_name = [])
    by now apply get_log_entry_case_duplicate.
  destruct (py_in (level entry) EXPORTED_LOG_LEVELS) eqn:Hlevel.
  - destruct (process_line_exported suite_name fc _ _ Hsome Hlevel) as [H1 H2].
    rewrite recorded_is_duplicate, Hrec in H1. rewrite Hcase in H2. tauto.
  - destruct (process_line_other_level suite_name fc _ _ Hsome Hlevel) as [H1 H2]. tauto.
Qed.

(** C1: when a line with level "error" produces a failing case for its
    func F and composed message M, every later line of the same file with
    func F and composed message M adds no case at all, neither a failing
    case nor a flaky sibling: the cases collected are the same before and
    after it. *)
Theorem later_identical_line_adds_no_case :
  forall suite_name pre a mid b fc_pre entry_a entry_b,
    process_lines suite_name pre [] = Ok fc_pre ->
    parse_line a = Some (Ok entry_a) ->
    level entry_a = Some "error" ->
    is_duplicate_entry entry_a (entry_message entry_a) fc_pre = false ->
    parse_line b = Some (Ok entry_b) ->
    func entry_b = func entry_a ->
    entry_message entry_b = entry_message entry_a ->
    exists fc,
      process_lines suite_name (pre ++ a :: mid) [] = Ok fc /\
      get_log_entry_case entry_b fc suite_name = [] /\
      emitted_by suite_name fc b = [] /\
      process_lines suite_name (pre ++ a :: mid ++ [b]) [] = Ok fc /\
      flatten fc <> [].
Proof.
  intros suite_name pre a mid b fc_pre ea eb Hpre Ha Hlevel Hfresh Hb Hfunc Hmsg.
  assert (Hexp : py_in (level ea) EXPORTED_LOG_LEVELS = true)
    by (apply py_in_exported; now right).
  destruct (process_line_total suite_name fc_pre a) as [fc_a Hstep].
  destruct (process_lines_total suite_name mid fc_a) as [fc Hmid].
  assert (Hrec : recorded fc_a (func ea) (entry_message ea) = true)
    by (eapply recorded_after_entry; eassumption).
  assert (Hrec' : recorded fc (func ea) (entry_message ea) = true)
    by (eapply recorded_process_lines; eassumption).
  rewrite <- Hfunc, <- Hmsg in Hrec'.
  destruct (recorded_line_adds_nothing suite_name fc _ _ Hb Hrec') as (Hstepb & Hemit & Hcase).
  assert (Hrun : process_lines suite_name (pre ++ a :: mid) [] = Ok fc).
  { rewrite process_lines_app, Hpre. simpl. rewrite Hstep. exact Hmid. }
  exists fc. repeat split; try assumption.
  - change (a :: mid ++ [b]) with ((a :: mid) ++ [b]).
    rewrite app_assoc, process_lines_app, Hrun. simpl. now rewrite Hstepb.
  - unfold recorded, Dict.get_default in Hrec'.
    destruct (Dict.get fc (func eb)) as [cs|] eqn:Hget; [|discriminate].
    apply get_In in Hget. unfold flatten, Dict.values. intro Hnil.
    destruct cs as [|c cs]; [discriminate|].
    assert (Hin : In c (concat (map snd fc))).
    { apply in_concat. exists (c :: cs). split; [|now left].
      change (c :: cs) with (snd (func eb, c :: cs)). now apply in_map. }
    rewrite Hnil in Hin. contradiction.
Qed.

Lemma later_identical_line_adds_no_case_witness :
  exists fc,
    process_lines "suite"
      ([] ++ log_line "t1" "error" "boom" "X" "a.go:2" (error_field "late")
          :: [log_line "t2" "info" "tick" "main" "main.go:1" " "]) [] = Ok fc /\
    get_log_entry_case
      (mkLogEntry (Some "t3") (Some "error") (Some "boom") (Some "X") (Some "b.go:9")
         (Some "late")) fc "suite" = [] /\
    emitted_by "suite" fc (log_line "t3" "error" "boom" "X" "b.go:9" (error_field "late")) = [] /\
    process_lines "suite"
      ([] ++ log_line "t1" "error" "boom" "X" "a.go:2" (error_field "late")
          :: [log_line "t2" "info" "tick" "main" "main.go:1" " "]
          ++ [log_line "t3" "error" "boom" "X" "b.go:9" (error_field "late")]) [] = Ok fc /\
    flatten fc <> [].
Proof.
  apply (later_identical_line_adds_no_case "suite" []
           (log_line "t1" "error" "boom" "X" "a.go:2" (error_field "late"))
           [log_line "t2" "info" "tick" "main" "main.go:1" " "]
           (log_line "t3" "error" "boom" "X" "b.go:9" (error_field "late"))
           []
           (mkLogEntry (Some "t1") (Some "error") (Some "boom") (Some "X")
                         (Some "a.go:2") (Some "late"))
           (mkLogEntry (Some "t3") (Some "error") (Some "boom") (Some "X")
                         (Some "b.go:9") (Some "late")));
    reflexivity.
Defined.

(** ** Invariants of the dictionary of cases *)

Lemma In_setitem (V : Type) (d : Dict.t V) k v k' v' :
  In (k', v') (Dict.setitem d k v) -> (k' = k /\ v' = v) \/ In (k', v') d.
Proof.
  induction d as [|[k0 v0] d IH]; simpl.
  - intros [[= <- <-] | []]. now left.
  - destruct (py_eqb k0 k) eqn:E; simpl.
    + apply py_eqb_eq in E. subst k0. intros [[= <- <-] | Hin]; [now left | tauto].
    + intros [Heq | Hin]; [tauto|]. destruct (IH Hin); tauto.
Qed.

Lemma get_default_ind (fc : fail_cases_t) k (P : list TestCase.t -> Prop) :
  P [] -> (forall cs, In (k, cs) fc -> P cs) -> P (Dict.get_default fc k []).
Proof.
  intros Hnil Hin. unfold Dict.get_default.
  destruct (Dict.get fc k) as [cs|] eqn:E; [|exact Hnil].
  apply Hin. now apply get_In.
Qed.

Lemma existsb_false_filter (A : Type) (f : A -> bool) (l : list A) :
  existsb f l = false -> filter f l = [].
Proof.
  induction l as [|a l IH]; simpl; [reflexivity|].
  destruct (f a); simpl; [discriminate | exact IH].
Qed.

Lemma get_log_entry_case_names entry fc suite_name :
  Forall (fun c => TestCase.name c = func entry) (get_log_entry_case entry fc suite_name).
Proof.
  destruct (is_duplicate_entry entry (entry_message entry) fc) eqn:Hdup.
  - rewrite (get_log_entry_case_duplicate _ _ _ Hdup). constructor.
  - rewrite (get_log_entry_case_fresh _ _ _ Hdup). cbn zeta.
    destruct (py_eqb (level entry) (Some "fatal")); repeat constructor.
Qed.

(** Among the cases of a fresh entry only the first has a failure, and its
    message is the entry's. *)
Lemma filter_has_message_fresh entry fc suite_name M :
  is_duplicate_entry entry (entry_message entry) fc = false ->
  List.length (filter (has_message M) (get_log_entry_case entry fc suite_name)) =
  if String.eqb (entry_message entry) M then 1 else 0.
Proof.
  intro Hdup. rewrite (get_log_entry_case_fresh _ _ _ Hdup). cbn zeta.
  destruct (py_eqb (level entry) (Some "fatal")); simpl; unfold has_message; simpl;
    now destruct (String.eqb (entry_message entry) M).
Qed.

Lemma grouped_empty : grouped [].
Proof. split; [constructor | intros k cs []]. Qed.

Lemma unique_messages_empty : unique_messages [].
Proof. intros k cs M []. Qed.

Lemma invariants_process_line suite_name fc fc' line :
  process_line suite_name fc line = Ok fc' ->
  grouped fc /\ unique_messages fc -> grouped fc' /\ unique_messages fc'.
Proof.
  intros Hstep [[Hnd Hnames] Huniq].
  destruct (parse_line_cases line) as [Hnone | [entry Hsome]].
  { destruct (process_line_unparsed suite_name fc _ Hnone) as [H _].
    assert (fc' = fc) by congruence. subst. repeat split; assumption. }
  destruct (py_in (level entry) EXPORTED_LOG_LEVELS) eqn:Hlevel.
  2:{ destruct (process_line_other_level suite_name fc _ _ Hsome Hlevel) as [H _].
      assert (fc' = fc) by congruence. subst. repeat split; assumption. }
  destruct (process_line_exported suite_name fc _ _ Hsome Hlevel) as [H _].
  rewrite H in Hstep. injection Hstep as <-.
  destruct (is_duplicate_entry entry (entry_message entry) fc) eqn:Hdup;
    [repeat split; assumption|].
  split; [split|].
  - now apply NoDup_keys_setitem.
  - intros k cs Hin. apply In_setitem in Hin as [[-> ->] | Hin]; [|now apply Hnames].
    apply Forall_app. split; [|apply get_log_entry_case_names].
    apply get_default_ind; [constructor | apply Hnames].
  - intros k cs M Hin. apply In_setitem in Hin as [[-> ->] | Hin]; [|now apply (Huniq k)].
    rewrite filter_app, length_app, (filter_has_message_fresh _ _ _ _ Hdup).
    destruct (String.eqb (entry_message entry) M) eqn:E.
    + apply String.eqb_eq in E. subst M.
      unfold is_duplicate_entry in Hdup. rewrite (existsb_false_filter _ _ _ Hdup).
      simpl. lia.
    + rewrite Nat.add_0_r. apply get_default_ind; [simpl; lia|].
      intros cs Hin. now apply (Huniq (func entry)).
Qed.

Lemma invariants_process_lines suite_name lines :
  forall fc fc',
    process_lines suite_name lines fc = Ok fc' ->
    grouped fc /\ unique_messages fc -> grouped fc' /\ unique_messages fc'.
Proof.
  induction lines as [|line rest IH]; intros fc fc'; simpl.
  - now intros [= <-].
  - destruct (process_line suite_name fc line) as [fc1|] eqn:E; simpl; [|discriminate].
    intros Hrest Hinv. apply (IH fc1 fc' Hrest).
    now apply (invariants_process_line suite_name fc fc1 line).
Qed.

(** In the flattened list, the cases named [F] are those filed under [F]. *)
Lemma filter_failing_with_other (cs : list TestCase.t) k F M :
  Forall (fun c => TestCase.name c = k) cs -> k <> F ->
  filter (failing_with F M) cs = [].
Proof.
  intros Hall Hneq. induction Hall as [|c cs Hc _ IH]; simpl; [reflexivity|].
  unfold failing_with at 1. rewrite Hc.
  apply py_eqb_neq in Hneq. now rewrite Hneq.
Qed.

Lemma filter_failing_with_same (cs : list TestCase.t) F M :
  Forall (fun c => TestCase.name c = F) cs ->
  filter (failing_with F M) cs = filter (has_message M) cs.
Proof.
  intros Hall. induction Hall as [|c cs Hc _ IH]; simpl; [reflexivity|].
  unfold failing_with at 1. rewrite Hc, py_eqb_refl. simpl.
  now rewrite IH.
Qed.

Lemma flatten_cons k cs (fc : fail_cases_t) : flatten ((k, cs) :: fc) = cs ++ flatten fc.
Proof. reflexivity. Qed.

Lemma filter_flatten_absent (fc : fail_cases_t) F M :
  (forall k cs, In (k, cs) fc -> Forall (fun c => TestCase.name c = k) cs) ->
  ~ In F (Dict.keys fc) ->
  filter (failing_with F M) (flatten fc) = [].
Proof.
  induction fc as [|[k cs] fc IH]; intros Hnames Hnotin; [reflexivity|].
  rewrite flatten_cons, filter_app.
  rewrite (filter_failing_with_other cs k F M).
  - simpl. apply IH.
    + intros k' cs' Hin. apply Hnames. now right.
    + intro Hin. apply Hnotin. now right.
  - apply Hnames. now left.
  - intros ->. apply Hnotin. now left.
Qed.

Lemma at_most_one_failing (fc : fail_cases_t) F M :
  grouped fc -> unique_messages fc ->
  List.length (filter (failing_with F M) (flatten fc)) <= 1.
Proof.
  intros [Hnd Hnames] Huniq.
  induction fc as [|[k cs] fc IH]; [simpl; lia|].
  rewrite flatten_cons, filter_app, length_app.
  inversion Hnd as [|? ? Hnotin Hnd']; subst.
  assert (Hnames' : forall k' cs', In (k', cs') fc ->
                                   Forall (fun c => TestCase.name c = k') cs')
    by (intros k' cs' Hin; apply Hnames; now right).
  destruct (py_eqb k F) eqn:E.
  - apply py_eqb_eq in E. subst k.
    rewrite (filter_flatten_absent fc F M Hnames' Hnotin), Nat.add_0_r.
    rewrite filter_failing_with_same by (apply Hnames; now left).
    apply (Huniq F). now left.
  - apply py_eqb_neq in E.
    rewrite (filter_failing_with_other cs k F M); [|apply Hnames; now left|exact E].
    simpl. apply IH; try assumption.
    intros k' cs' M' Hin. apply (Huniq k'). now right.
Qed.

(** A failing case found in the flattened list is on record under its
    name. *)
Lemma flatten_recorded (fc : fail_cases_t) F M c :
  grouped fc -> In c (flatten fc) -> failing_with F M c = true ->
  recorded fc F M = true.
Proof.
  intros [Hnd Hnames] Hin Hc. unfold flatten, Dict.values in Hin.
  apply in_concat in Hin as (cs & Hcs & Hin).
  apply in_map_iff in Hcs as ([k cs'] & Heq & Hbind). simpl in Heq. subst cs'.
  unfold failing_with in Hc. apply andb_true_iff in Hc as [Hname Hmsg].
  apply py_eqb_eq in Hname.
  assert (k = F).
  { pose proof (Hnames k cs Hbind) as Hall. rewrite Forall_forall in Hall.
    rewrite <- (Hall c Hin). exact Hname. }
  subst k. unfold recorded, Dict.get_default.
  rewrite (In_get _ fc F cs Hnd Hbind).
  apply existsb_exists. now exists c.
Qed.

(** C9: after any number of lines of one file, the cases collected hold
    at most one failing case per func and composed message; the level
    plays no part: an entry whose func and composed message are those of a
    failing case already collected adds nothing whatever its level, be it
    "fatal" after "error" or the reverse. *)
Theorem one_failing_case_per_func_and_message :
  forall suite_name lines fc,
    process_lines suite_name lines [] = Ok fc ->
    (forall F M, List.length (filter (failing_with F M) (flatten fc)) <= 1) /\
    (forall line entry c,
       parse_line line = Some (Ok entry) ->
       In c (flatten fc) ->
       failing_with (func entry) (entry_message entry) c = true ->
       get_log_entry_case entry fc suite_name = [] /\
       emitted_by suite_name fc line = [] /\
       process_line suite_name fc line = Ok fc).
Proof.
  intros suite_name lines fc Hrun.
  destruct (invariants_process_lines suite_name lines [] fc Hrun
              (conj grouped_empty unique_messages_empty)) as [Hgrouped Huniq].
  split.
  - intros F M. now apply at_most_one_failing.
  - intros line entry c Hparse Hin Hc.
    pose proof (flatten_recorded fc _ _ c Hgrouped Hin Hc) as Hrec.
    destruct (recorded_line_adds_nothing suite_name fc line entry Hparse Hrec)
      as (H1 & H2 & H3).
    tauto.
Qed.

Lemma one_failing_case_per_func_and_message_witness :
  process_lines "suite" [sample_first_line] [] = Ok sample_after_first /\
  List.length (filter (failing_with (Some "X") ("boom" ++ nl)%string)
                 (flatten sample_after_first)) <= 1 /\
  get_log_entry_case sample_fatal_again sample_after_first "suite" = [] /\
  emitted_by "suite" sample_after_first sample_again_line = [] /\
  process_line "suite" sample_after_first sample_again_line = Ok sample_after_first.
Proof.
  assert (Hrun : process_lines "suite" [sample_first_line] [] = Ok sample_after_first)
    by (vm_compute; reflexivity).
  split; [exact Hrun|].
  destruct (one_failing_case_per_func_and_message "suite" [sample_first_line]
              sample_after_first Hrun) as [Hone Hsame].
  split; [apply Hone|].
  apply (Hsame sample_again_line sample_fatal_again
           (TestCase.mk (Some "X") (Some "suite") None None None (Some "t1") None
              (Some "suite") []
              [mkCaseFailure ("boom" ++ nl)%string ("boom" ++ nl)%string (Some "error")] []));
    [vm_compute; reflexivity | left; vm_compute; reflexivity | vm_compute; reflexivity].
Defined.

(** ** The flattened list holds what the lines emitted *)

Lemma flatten_app (d1 d2 : fail_cases_t) : flatten (d1 ++ d2) = flatten d1 ++ flatten d2.
Proof. unfold flatten, Dict.values. now rewrite map_app, concat_app. Qed.

Lemma flatten_setitem_append (fc : fail_cases_t) k cases :
  Permutation
    (flatten (Dict.setitem fc k (Dict.get_default fc k [] ++ cases)))
    (flatten fc ++ cases).
Proof.
  unfold Dict.get_default.
  induction fc as [|[k0 v0] d IH]; simpl.
  - unfold flatten. simpl. now rewrite app_nil_r.
  - destruct (py_eqb k0 k) eqn:E.
    + rewrite !flatten_cons, <- !app_assoc.
      apply Permutation_app_head, Permutation_app_comm.
    + rewrite !flatten_cons, <- app_assoc.
      apply Permutation_app_head, IH.
Qed.

Lemma flatten_process_line suite_name fc fc' line :
  process_line suite_name fc line = Ok fc' ->
  Permutation (flatten fc') (flatten fc ++ emitted_by suite_name fc line).
Proof.
  intro Hstep.
  destruct (parse_line_cases line) as [Hnone | [entry Hsome]].
  { destruct (process_line_unparsed suite_name fc _ Hnone) as [H1 H2].
    rewrite H2, app_nil_r. assert (fc' = fc) by congruence. now subst. }
  destruct (py_in (level entry) EXPORTED_LOG_LEVELS) eqn:Hlevel.
  2:{ destruct (process_line_other_level suite_name fc _ _ Hsome Hlevel) as [H1 H2].
      rewrite H2, app_nil_r. assert (fc' = fc) by congruence. now subst. }
  destruct (process_line_exported suite_name fc _ _ Hsome Hlevel) as [H1 H2].
  rewrite H2. rewrite H1 in Hstep. injection Hstep as <-.
  destruct (is_duplicate_entry entry (entry_message entry) fc) eqn:Hdup.
  - now rewrite (get_log_entry_case_duplicate _ _ _ Hdup), app_nil_r.
  - apply flatten_setitem_append.
Qed.

Lemma flatten_process_lines suite_name lines :
  forall fc fc',
    process_lines suite_name lines fc = Ok fc' ->
    Permutation (flatten fc') (flatten fc ++ emitted_all suite_name lines fc).
Proof.
  induction lines as [|line rest IH]; intros fc fc'; simpl.
  - intros [= <-]. now rewrite app_nil_r.
  - destruct (process_line suite_name fc line) as [fc1|] eqn:E; simpl; [|discriminate].
    intro Hrest. rewrite app_assoc.
    eapply perm_trans; [apply (IH fc1 fc' Hrest)|].
    apply Permutation_app_tail. now apply flatten_process_line.
Qed.

(** Reading one file: once its lines are read, the cases come back and one
    message is logged. *)
Lemma get_failure_cases_run w file suite_name log lines :
  read_lines w file = Ok lines ->
  exists fc,
    process_lines suite_name lines [] = Ok fc /\
    get_failure_cases w file suite_name log =
    (Ok (flatten fc),
     log ++ [Logged ("Found " ++ str_of_nat (List.length fc) ++ " failures on "
                     ++ suite_name ++ " suite")]).
Proof.
  intro Hread. destruct (process_lines_total suite_name lines []) as [fc Hfc].
  exists fc. split; [exact Hfc|].
  unfold get_failure_cases, io_bind, lift, log_info, io_ret, Dict.empty.
  now rewrite Hread, Hfc.
Qed.

(** ** One suite per file *)

Lemma glob_names w source_dir pattern files :
  glob w source_dir pattern = Ok files ->
  Forall (fun file => fnmatch pattern (Path.name file) = true) files.
Proof.
  unfold glob. destruct (scandir w source_dir) as [names|]; simpl; [|discriminate].
  intros [= <-]. apply Forall_forall. intros file Hin.
  apply in_map_iff in Hin as (n & <- & Hn). apply filter_In in Hn as [_ Hn].
  unfold Path.name, Path.joinpath. now rewrite last_last.
Qed.

Lemma build_suites_run w files :
  forall suites log,
    (forall file, In file files -> exists lines, read_lines w file = Ok lines) ->
    exists built log',
      build_suites w files suites log = (Ok (suites ++ built), log') /\
      Forall2 (fun file suite =>
                 exists lines, read_lines w file = Ok lines /\
                               suite_of_file file lines suite)
              files built.
Proof.
  induction files as [|file rest IH]; intros suites log Hread.
  - exists [], log. simpl. unfold io_ret. rewrite app_nil_r. split; constructor.
  - destruct (Hread file (or_introl eq_refl)) as [lines Hlines].
    destruct (get_failure_cases_run w file (suite_name_of file)
                (log ++ [Logged ("Creating test suite from " ++ suite_name_of file ++ ".log")])
                lines Hlines) as (fc & Hfc & Hget).
    pose (suite := TestSuite.mk (suite_name_of file) (flatten fc)
                     match flatten fc with
                     | c :: _ => TestCase.timestamp c
                     | [] => None
                     end).
    destruct (IH (suites ++ [suite])
                (log ++ [Logged ("Creating test suite from " ++ suite_name_of file ++ ".log")]
                     ++ [Logged ("Found " ++ str_of_nat (List.length fc) ++ " failures on "
                                 ++ suite_name_of file ++ " suite")]))
      as (built & log' & Hrun & Hall).
    { intros f Hf. apply Hread. now right. }
    exists (suite :: built), log'. split.
    + cbn [build_suites]. unfold io_bind at 1. unfold log_info at 1.
      unfold io_bind at 1. rewrite Hget.
      rewrite <- app_assoc in Hrun. rewrite <- app_assoc. exact Hrun.
    + constructor; [|exact Hall].
      exists lines. split; [exact Hlines|]. exists fc.
      destruct (invariants_process_lines _ lines [] fc Hfc
                  (conj grouped_empty unique_messages_empty)) as [Hgrouped _].
      repeat split; try reflexivity; try assumption; try apply Hgrouped.
      apply (flatten_process_lines _ lines [] fc Hfc).
Qed.

(** C8: the loop over the files the glob returns builds exactly one suite
    per file, in the order of the files and also for a file without any
    case; the suite's cases are the cases the file's lines emitted, filed
    by func (distinct keys, each case under its own name) and flattened in
    the order of the keys; the suite's timestamp is that of the first case
    of this list, and unset when the list is empty. *)
Theorem one_suite_per_file :
  forall w source_dir files log,
    glob w source_dir SERVICE_LOGS = Ok files ->
    (forall file, In file files -> exists lines, read_lines w file = Ok lines) ->
    exists suites log',
      build_suites w files [] log = (Ok suites, log') /\
      List.length suites = List.length files /\
      Forall2 (fun file suite =>
                 fnmatch SERVICE_LOGS (Path.name file) = true /\
                 exists lines, read_lines w file = Ok lines /\
                               suite_of_file file lines suite)
              files suites.
Proof.
  intros w source_dir files log Hglob Hread.
  destruct (build_suites_run w files [] log Hread) as (built & log' & Hrun & Hall).
  exists built, log'. split; [exact Hrun|]. split.
  - symmetry. now apply (Forall2_length Hall).
  - pose proof (glob_names _ _ _ _ Hglob) as Hnames.
    clear Hrun Hread Hglob. induction Hall as [|file suite rest built' H Hall IH]; constructor.
    + inversion Hnames; subst. tauto.
    + apply IH. now inversion Hnames.
Qed.

Lemma one_suite_per_file_witness :
  let files := [["logs"; "k8s_assisted-service-abc.log"];
                ["logs"; "k8s_assisted-service-quiet.log"]] in
  exists suites log',
    build_suites sample_world files [] [] = (Ok suites, log') /\
    List.length suites = List.length files /\
    Forall2 (fun file suite =>
               fnmatch SERVICE_LOGS (Path.name file) = true /\
               exists lines, read_lines sample_world file = Ok lines /\
                             suite_of_file file lines suite)
            files suites.
Proof.
  intro files.
  apply (one_suite_per_file sample_world ["logs"] files []).
  - vm_compute. reflexivity.
  - intros file _. simpl.
    destruct (String.eqb (Path.name file) "k8s_assisted-service-abc.log");
      eexists; reflexivity.
Defined.

(** ** Lines that end after the file field *)

(** C2: the fatal line with func Install and msg boom that ends right
    after the closing quote of its file field is not matched: the pattern
    asks for a space after that quote before the optional error group.  No
    entry is built and the file yields no case, where one case named
    Install with the message boom and a line feed was expected.  The same
    line with a space after the quote is matched, with the error field
    unset, and yields that case. *)
Theorem line_ending_after_file_not_matched :
  re_match LOG_FORMAT install_line = None /\
  parse_line install_line = None /\
  process_lines "assisted-service-abc" [install_line] [] = Ok [] /\
  parse_line install_line_spaced =
    Some (Ok (mkLogEntry (Some "2021-01-01T10:00:05Z") (Some "fatal") (Some "boom")
                (Some "Install") (Some "main.go:7") None)) /\
  (fc <- process_lines "assisted-service-abc" [install_line_spaced] [] ;; Ok (flatten fc)) =
    Ok [TestCase.mk (Some "Install") (Some "assisted-service-abc") None None None
          (Some "2021-01-01T10:00:05Z") None (Some "assisted-service-abc") []
          [mkCaseFailure ("boom" ++ nl)%string ("boom" ++ nl)%string (Some "fatal")] []].
Proof. repeat split; vm_compute; reflexivity. Qed.

(** ** Suite names *)

Lemma fnmatch_literal p pat s :
  Ascii.eqb p "*"%char = false ->
  fnmatch (String p pat) s = true ->
  exists t, s = String p t /\ fnmatch pat t = true.
Proof.
  intros Hp. simpl. rewrite Hp. destruct s as [|c t]; [discriminate|].
  intro H. apply andb_true_iff in H as [Hc Ht].
  apply Ascii.eqb_eq in Hc. subst c. now exists t.
Qed.

Lemma fnmatch_star pat s :
  fnmatch (String "*"%char pat) s = true ->
  exists a b, s = (a ++ b)%string /\ fnmatch pat b = true.
Proof.
  simpl. induction s as [|c t IH]; intro H; apply orb_true_iff in H as [H | H].
  - now exists EmptyString, EmptyString.
  - discriminate.
  - now exists EmptyString, (String c t).
  - destruct (IH H) as (a & b & -> & Hb). now exists (String c a), b.
Qed.

Lemma fnmatch_end s : fnmatch EmptyString s = true -> s = EmptyString.
Proof. now destruct s. Qed.

(** The names the glob pattern accepts. *)
Lemma fnmatch_SERVICE_LOGS n :
  fnmatch SERVICE_LOGS n = true ->
  exists mid, n = ("k8s_assisted-service" ++ mid ++ ".log")%string.
Proof.
  unfold SERVICE_LOGS. intro H.
  repeat (apply fnmatch_literal in H as (?t & -> & H); [|reflexivity]).
  apply fnmatch_star in H as (mid & b & -> & H).
  repeat (apply fnmatch_literal in H as (?t & -> & H); [|reflexivity]).
  apply fnmatch_end in H as ->.
  now exists mid.
Qed.

Lemma rfind_app c x y :
  rfind c y = None -> rfind c (x ++ String c y) = Some (String.length x).
Proof.
  intro Hy. induction x as [|a x IH]; simpl.
  - now rewrite Hy, Ascii.eqb_refl.
  - now rewrite IH.
Qed.

Lemma substring_app_length x y : substring 0 (String.length x) (x ++ y) = x.
Proof.
  induction x as [|a x IH]; simpl.
  - now destruct y.
  - now rewrite IH.
Qed.

Lemma length_append x y : String.length (x ++ y) = String.length x + String.length y.
Proof. induction x as [|a x IH]; simpl; [reflexivity | now rewrite IH]. Qed.

(** The stem of a name that ends in [.log]. *)
Lemma stem_log (file : Path.t) x :
  x <> EmptyString ->
  Path.name file = (x ++ ".log")%string -> Path.stem file = x.
Proof.
  intros Hx Hname. unfold Path.stem. rewrite Hname.
  change (x ++ ".log")%string with (x ++ String "."%char "log")%string.
  rewrite rfind_app by reflexivity.
  rewrite length_append. simpl String.length.
  destruct x as [|a x]; [contradiction|].
  replace (Nat.ltb 0 (String.length (String a x))) with true by reflexivity.
  replace (Nat.ltb (String.length (String a x)) (String.length (String a x) + 4 - 1))
    with true by (symmetry; apply Nat.ltb_lt; lia).
  simpl andb. apply substring_app_length.
Qed.

Lemma replace_no_occurrence old new s :
  occurs old s = false -> replace_from old new 0 s = s.
Proof.
  induction s as [|c t IH]; simpl; [reflexivity|].
  intro H. apply orb_false_iff in H as [Hp Ht].
  change (match old with
          | EmptyString => true
          | String a s1' =>
              if Ascii.ascii_dec a c then prefix s1' t else false
          end) with (prefix old (String c t)) in *.
  rewrite Hp. now rewrite IH.
Qed.

Lemma replace_from_length old skip s :
  String.length (replace_from old EmptyString skip s) <= String.length s.
Proof.
  revert skip. induction s as [|c t IH]; intro skip; simpl; [lia|].
  destruct skip as [|n].
  - match goal with |- context [if ?b then _ else _] => destruct b end; simpl.
    + specialize (IH (String.length old - 1)). lia.
    + specialize (IH 0). lia.
  - specialize (IH n). lia.
Qed.

Lemma replace_occurrence_shorter old s :
  old <> EmptyString ->
  occurs old s = true ->
  String.length (replace_from old EmptyString 0 s) < String.length s.
Proof.
  intro Hold. induction s as [|c t IH]; simpl.
  - destruct old; [contradiction | simpl; discriminate].
  - intro H.
    match goal with |- context [if ?b then _ else _] => destruct b eqn:Hp end; simpl.
    + pose proof (replace_from_length old (String.length old - 1) t). lia.
    + simpl in H. apply IH in H. lia.
Qed.

Lemma append_assoc_s (a b c : string) : ((a ++ b) ++ c = a ++ b ++ c)%string.
Proof. induction a as [|x a IH]; simpl; [reflexivity | now rewrite IH]. Qed.

Lemma append_inj_l (a b c : string) : (a ++ b = a ++ c)%string -> b = c.
Proof. induction a as [|x a IH]; simpl; [tauto | intros [= H]; now apply IH]. Qed.

(** C5 as stated fails: a later occurrence of k8s_ in the base name is
    removed as well. *)
Lemma suite_name_later_k8s_counterexample :
  ~ (forall file rest,
       fnmatch SERVICE_LOGS (Path.name file) = true ->
       Path.stem file = ("k8s_" ++ rest)%string ->
       suite_name_of file = rest).
Proof.
  intro H.
  specialize (H ["logs"; "k8s_assisted-service-k8s_x.log"] "assisted-service-k8s_x"
                eq_refl eq_refl).
  vm_compute in H. discriminate.
Qed.

(** C5, amended: for a file whose name matches the pattern, the suite
    name is the stem with the leading k8s_ and every later occurrence of
    k8s_ (found left to right, not overlapping) removed; it is the stem
    without its prefix exactly when k8s_ does not occur again. *)
Theorem suite_name_removes_every_k8s :
  forall file,
    fnmatch SERVICE_LOGS (Path.name file) = true ->
    exists mid,
      Path.name file = ("k8s_assisted-service" ++ mid ++ ".log")%string /\
      Path.stem file = ("k8s_" ++ "assisted-service" ++ mid)%string /\
      suite_name_of file = ("assisted-service" ++ replace "k8s_" EmptyString mid)%string /\
      (occurs "k8s_" mid = false ->
       suite_name_of file = ("assisted-service" ++ mid)%string) /\
      (occurs "k8s_" mid = true ->
       suite_name_of file <> ("assisted-service" ++ mid)%string).
Proof.
  intros file Hmatch.
  destruct (fnmatch_SERVICE_LOGS _ Hmatch) as [mid Hname].
  exists mid. split; [exact Hname|].
  assert (Hstem : Path.stem file = ("k8s_assisted-service" ++ mid)%string).
  { apply stem_log; [discriminate|]. now rewrite append_assoc_s. }
  split; [exact Hstem|].
  assert (Hsuite : suite_name_of file
                   = ("assisted-service" ++ replace "k8s_" EmptyString mid)%string).
  { unfold suite_name_of. rewrite Hstem. reflexivity. }
  split; [exact Hsuite|]. split.
  - intro Hno. rewrite Hsuite. unfold replace. now rewrite replace_no_occurrence.
  - intros Hocc Heq. rewrite Hsuite in Heq. apply append_inj_l in Heq.
    pose proof (replace_occurrence_shorter "k8s_" mid) as Hlt.
    unfold replace in Heq. rewrite Heq in Hlt.
    specialize (Hlt ltac:(discriminate) Hocc). lia.
Qed.

Lemma suite_name_removes_every_k8s_witness :
  exists mid,
    Path.name ["logs"; "k8s_assisted-service-k8s_x.log"]
      = ("k8s_assisted-service" ++ mid ++ ".log")%string /\
    Path.stem ["logs"; "k8s_assisted-service-k8s_x.log"]
      = ("k8s_" ++ "assisted-service" ++ mid)%string /\
    suite_name_of ["logs"; "k8s_assisted-service-k8s_x.log"]
      = ("assisted-service" ++ replace "k8s_" EmptyString mid)%string /\
    (occurs "k8s_" mid = false ->
     suite_name_of ["logs"; "k8s_assisted-service-k8s_x.log"]
       = ("assisted-service" ++ mid)%string) /\
    (occurs "k8s_" mid = true ->
     suite_name_of ["logs"; "k8s_assisted-service-k8s_x.log"]
       <> ("assisted-service" ++ mid)%string).
Proof.
  apply (suite_name_removes_every_k8s ["logs"; "k8s_assisted-service-k8s_x.log"]).
  reflexivity.
Defined.

(** ** The top level *)

Lemma SuppressAndLog_BaseException (body : IO unit) log :
  exists log',
    SuppressAndLog BaseException body log = (Ok tt, log') /\
    (forall e l, body log = (Raise e, l) -> log' = l ++ [Suppressed e]) /\
    (forall u l, body log = (Ok u, l) -> log' = l).
Proof.
  unfold SuppressAndLog, BaseException.
  destruct (body log) as [[u | e] l].
  - exists l. split; [reflexivity|]. split; [discriminate | now intros ? ? [= _ <-]].
  - exists (l ++ [Suppressed e]). split; [reflexivity|].
    split; [now intros ? ? [= <- <-] | discriminate].
Qed.

(** C4 as stated fails: with a destination that cannot be created, the
    exception of [mkdir] is raised before the wrapper is entered, escapes,
    and the exit status is 1; so does the [TypeError] of a missing [--dst]. *)
Lemma exit_code_counterexample :
  ~ (forall w args log, exit_code (fst (script w args log)) = 0) /\
  fst (script sample_world_no_parent sample_args_no_parent []) = Raise FileNotFoundError /\
  fst (script sample_world (mkArgs (Some "/tmp/logs") None) []) = Raise TypeError.
Proof.
  split; [|split; reflexivity].
  intro H. specialize (H sample_world_no_parent sample_args_no_parent []).
  vm_compute in H. discriminate.
Qed.

(** C4, amended: whenever the destination directory is given and
    [mkdir] succeeds on it, the script returns normally and the exit status
    is 0 whatever happens inside the wrapper: an exception raised while
    scanning, parsing or writing is suppressed and logged.  Exceptions
    raised before the wrapper is entered escape. *)
Theorem export_exceptions_suppressed :
  forall w args report_dir log,
    Path.of_arg (dst args) = Ok report_dir ->
    mkdir_exist_ok w report_dir = Ok tt ->
    exists log',
      main w args log = (Ok tt, log') /\
      exit_code (fst (main w args log)) = 0 /\
      exit_code (fst (script w args log)) = 0 /\
      (forall e l, main_body w args report_dir log = (Raise e, l) ->
                   log' = l ++ [Suppressed e]).
Proof.
  intros w args report_dir log Hdst Hmkdir.
  assert (Hmain : forall log0,
             main w args log0 = SuppressAndLog BaseException (main_body w args report_dir) log0).
  { intro log0. unfold main, io_bind, lift. now rewrite Hdst, Hmkdir. }
  destruct (SuppressAndLog_BaseException (main_body w args report_dir) log)
    as (log' & Hrun & Hraise & _).
  exists log'. rewrite Hmain, Hrun. repeat split; try assumption.
  unfold script, io_bind, log_info. rewrite Hmain.
  destruct (SuppressAndLog_BaseException (main_body w args report_dir)
              (log ++ [Logged "Initializing attempt for creating JUNIT report from service logs"]))
    as (log'' & Hrun' & _).
  now rewrite Hrun'.
Qed.

Lemma export_exceptions_suppressed_witness :
  exists log',
    main sample_world_unreadable sample_args [] = (Ok tt, log') /\
    exit_code (fst (main sample_world_unreadable sample_args [])) = 0 /\
    exit_code (fst (script sample_world_unreadable sample_args [])) = 0 /\
    (forall e l, main_body sample_world_unreadable sample_args ["/"; "tmp"; "reports"] []
                 = (Raise e, l) ->
                 log' = l ++ [Suppressed e]).
Proof.
  apply (export_exceptions_suppressed sample_world_unreadable sample_args
           ["/"; "tmp"; "reports"] []); reflexivity.
Defined.

(** In the world with unreadable logs the wrapper has something to catch. *)
Lemma unreadable_logs_raise :
  fst (main_body sample_world_unreadable sample_args ["/"; "tmp"; "reports"] [])
  = Raise PermissionError.
Proof. vm_compute. reflexivity. Qed.

(** * Further properties *)

(** ** What a match says about the line *)

Lemma strip_prefix_app p s s' : strip_prefix p s = Some s' -> s = (p ++ s')%string.
Proof.
  revert s. induction p as [|a p IH]; intros s; simpl.
  - now intros [= ->].
  - destruct s as [|b s]; [discriminate|].
    destruct (Ascii.eqb a b) eqn:E; [|discriminate].
    apply Ascii.eqb_eq in E. subst b. intro H. now rewrite (IH _ H).
Qed.

Lemma dotstar_takes g k s e :
  dotstar g k s = Some e ->
  exists u s', s = (u ++ s')%string /\ no_LF u = true /\ k s' = Some e.
Proof.
  induction s as [|c t IH]; simpl.
  - intro H. now exists EmptyString, EmptyString.
  - destruct (Ascii.eqb c LF) eqn:Ec.
    + intro H. now exists EmptyString, (String c t).
    + assert (Hrec : dotstar g k t = Some e ->
                     exists u s', String c t = (u ++ s')%string /\ no_LF u = true
                                  /\ k s' = Some e).
      { intro H. destruct (IH H) as (u & s' & -> & Hu & Hk).
        exists (String c u), s'. simpl. rewrite Ec. now repeat split. }
      destruct g.
      * destruct (dotstar true k t) as [e'|] eqn:E.
        -- intros [= <-]. now apply Hrec.
        -- intro H. now exists EmptyString, (String c t).
      * destruct (k (String c t)) as [e'|] eqn:E.
        -- intros [= <-]. now exists EmptyString, (String c t).
        -- exact Hrec.
Qed.

Lemma consumed_app u s' : consumed (u ++ s') s' = u.
Proof.
  unfold consumed. rewrite length_append.
  replace (String.length u + String.length s' - String.length s') with (String.length u) by lia.
  apply substring_app_length.
Qed.

(** The matcher is sound: what it accepts is a prefix of the subject that
    the pattern can take, and the captures are the texts of the groups. *)
Lemma rmatch_matches (r : regex) :
  forall s env k e,
    rmatch r s env k = Some e ->
    exists u s' env',
      s = (u ++ s')%string /\ matches r u env env' /\ k s' env' = Some e.
Proof.
  induction r as [p | g | o r IH | r1 IH1 r2 IH2 | r IH]; intros s env k e H; simpl in H.
  - destruct (strip_prefix p s) as [s'|] eqn:E; [|discriminate].
    exists p, s', env. split; [now apply strip_prefix_app|]. now split.
  - apply dotstar_takes in H as (u & s' & -> & Hu & Hk).
    exists u, s', env. now repeat split.
  - apply IH in H as (u & s' & env1 & -> & Hm & Hk).
    rewrite consumed_app in Hk.
    exists u, s', (record o u env1). split; [reflexivity|]. split; [|exact Hk].
    simpl. now exists env1.
  - apply IH1 in H as (u1 & s1 & env1 & -> & Hm1 & Hk1).
    apply IH2 in Hk1 as (u2 & s2 & env2 & -> & Hm2 & Hk2).
    exists (u1 ++ u2)%string, s2, env2. split; [now rewrite append_assoc_s|].
    split; [|exact Hk2]. simpl. now exists u1, u2, env1.
  - destruct (rmatch r s env k) as [e'|] eqn:E.
    + injection H as <-. apply IH in E as (u & s' & env' & -> & Hm & Hk).
      exists u, s', env'. split; [reflexivity|]. split; [|exact Hk]. simpl. now left.
    + exists EmptyString, s, env. split; [reflexivity|]. split; [|exact H].
      simpl. now right.
Qed.

(** X1: a line that matches [LOG_FORMAT] starts with the five fields in
    their order, each captured text being the text at its place and free
    of line feeds, with a quote and a space after the file text; an error
    capture, when there is one, is the text of an error field that follows
    at once. *)
Theorem matched_line_shape :
  forall line values,
    re_match LOG_FORMAT line = Some values ->
    exists t l m f fl err rest,
      line = ("time=" ++ dq ++ t ++ dq ++ " level=" ++ l ++ " msg=" ++ dq ++ m ++ dq
              ++ " func=" ++ f ++ " file=" ++ dq ++ fl ++ dq ++ " " ++ rest)%string /\
      values = [("time", Some t); ("level", Some l); ("msg", Some m);
                ("func", Some f); ("file", Some fl); ("error", err)] /\
      no_LF t = true /\ no_LF l = true /\ no_LF m = true /\
      no_LF f = true /\ no_LF fl = true /\
      (forall e, err = Some e ->
                 no_LF e = true /\
                 exists rest', rest = ("error=" ++ dq ++ e ++ dq ++ rest')%string).
Proof.
  unfold re_match. intros line values H.
  destruct (rmatch LOG_FORMAT line [] (fun _ env => Some env)) as [env|] eqn:E;
    [|discriminate].
  injection H as <-.
  apply rmatch_matches in E as (u & s' & env' & -> & Hm & Hk).
  injection Hk as ->.
  change (group_names LOG_FORMAT) with ["time"; "level"; "msg"; "func"; "file"; "error"].
  unfold LOG_FORMAT in Hm. cbn [matches] in Hm.
  repeat match type of Hm with
         | exists _, _ => destruct Hm as [? Hm]
         | _ /\ _ => let H1 := fresh "H" in destruct Hm as [H1 Hm]
         end.
  repeat match goal with
         | H : exists _, _ |- _ => destruct H as [? H]
         | H : _ /\ _ |- _ => destruct H
         end.
  subst. cbn [record] in *.
  destruct Hm as [Hm | [-> ->]].
  - repeat match goal with
           | H : exists _, _ |- _ => destruct H as [? H]
           | H : _ /\ _ |- _ => destruct H
           end.
    subst. cbn [record].
    do 5 eexists. eexists (Some _). eexists.
    split; [|split; [reflexivity|]].
    + rewrite !append_assoc_s. unfold dq. simpl. reflexivity.
    + repeat (split; [assumption|]).
      intros e [= <-]. split; [assumption|]. eexists. reflexivity.
  - do 5 eexists. exists None. eexists.
    split; [|split; [reflexivity|]].
    + rewrite !append_assoc_s. unfold dq. simpl. reflexivity.
    + repeat (split; [assumption|]). discriminate.
Qed.

Lemma matched_line_shape_witness :
  exists t l m f fl err rest,
    log_line "t1" "error" "boom" "X" "a.go:2" (error_field "late")
    = ("time=" ++ dq ++ t ++ dq ++ " level=" ++ l ++ " msg=" ++ dq ++ m ++ dq
       ++ " func=" ++ f ++ " file=" ++ dq ++ fl ++ dq ++ " " ++ rest)%string /\
    [("time", Some "t1"); ("level", Some "error"); ("msg", Some "boom");
     ("func", Some "X"); ("file", Some "a.go:2"); ("error", Some "late")]
    = [("time", Some t); ("level", Some l); ("msg", Some m);
       ("func", Some f); ("file", Some fl); ("error", err)] /\
    no_LF t = true /\ no_LF l = true /\ no_LF m = true /\
    no_LF f = true /\ no_LF fl = true /\
    (forall e, err = Some e ->
               no_LF e = true /\
               exists rest', rest = ("error=" ++ dq ++ e ++ dq ++ rest')%string).
Proof.
  apply (matched_line_shape
           (log_line "t1" "error" "boom" "X" "a.go:2" (error_field "late"))).
  vm_compute. reflexivity.
Defined.

(** ** Suppression happens only for what was seen *)

Lemma has_message_fresh_cases entry fc suite_name M :
  is_duplicate_entry entry (entry_message entry) fc = false ->
  existsb (has_message M) (get_log_entry_case entry fc suite_name) = true ->
  M = entry_message entry.
Proof.
  intros Hdup. rewrite (get_log_entry_case_fresh _ _ _ Hdup). cbn zeta.
  destruct (py_eqb (level entry) (Some "fatal")); simpl; unfold has_message; simpl;
    rewrite ?orb_false_r; intro H; apply String.eqb_eq in H; now subst.
Qed.

Lemma recorded_process_line_inv suite_name fc fc' line F M :
  process_line suite_name fc line = Ok fc' ->
  recorded fc' F M = true ->
  recorded fc F M = true \/
  exists entry,
    parse_line line = Some (Ok entry) /\
    py_in (level entry) EXPORTED_LOG_LEVELS = true /\
    func entry = F /\ entry_message entry = M.
Proof.
  intros Hstep Hrec.
  destruct (parse_line_cases line) as [Hnone | [entry Hsome]].
  { destruct (process_line_unparsed suite_name fc _ Hnone) as [H _].
    left. congruence. }
  destruct (py_in (level entry) EXPORTED_LOG_LEVELS) eqn:Hlevel.
  2:{ destruct (process_line_other_level suite_name fc _ _ Hsome Hlevel) as [H _].
      left. congruence. }
  destruct (process_line_exported suite_name fc _ _ Hsome Hlevel) as [H _].
  rewrite H in Hstep. injection Hstep as <-.
  destruct (is_duplicate_entry entry (entry_message entry) fc) eqn:Hdup; [now left|].
  unfold recorded in Hrec. rewrite get_default_setitem in Hrec.
  destruct (py_eqb (func entry) F) eqn:E; [|now left].
  apply py_eqb_eq in E. rewrite existsb_app in Hrec.
  apply orb_true_iff in Hrec as [Hold | Hnew].
  - left. unfold recorded. now rewrite <- E.
  - right. exists entry. repeat split; try assumption.
    symmetry. now apply (has_message_fresh_cases entry fc suite_name M).
Qed.

Lemma recorded_process_lines_inv suite_name lines F M :
  forall fc fc',
    process_lines suite_name lines fc = Ok fc' ->
    recorded fc' F M = true ->
    recorded fc F M = true \/
    exists line entry,
      In line lines /\
      parse_line line = Some (Ok entry) /\
      py_in (level entry) EXPORTED_LOG_LEVELS = true /\
      func entry = F /\ entry_message entry = M.
Proof.
  induction lines as [|line rest IH]; intros fc fc'; simpl.
  - intros [= <-] H. now left.
  - destruct (process_line suite_name fc line) as [fc1|] eqn:E; simpl; [|discriminate].
    intros Hrest Hrec.
    destruct (IH fc1 fc' Hrest Hrec) as [H1 | (l & e & Hin & H)].
    + destruct (recorded_process_line_inv _ _ _ _ _ _ E H1) as [H0 | (e & H)].
      * now left.
      * right. exists line, e. split; [now left | exact H].
    + right. exists l, e. split; [now right | exact H].
Qed.

Lemma all_recorded suite_name lines :
  forall fc fc',
    process_lines suite_name lines fc = Ok fc' ->
    forall line entry,
      In line lines ->
      parse_line line = Some (Ok entry) ->
      py_in (level entry) EXPORTED_LOG_LEVELS = true ->
      recorded fc' (func entry) (entry_message entry) = true.
Proof.
  induction lines as [|l rest IH]; intros fc fc' Hrun line entry Hin Hparse Hlevel;
    [contradiction|].
  simpl in Hrun.
  destruct (process_line suite_name fc l) as [fc1|] eqn:E; simpl in Hrun; [|discriminate].
  destruct Hin as [-> | Hin].
  - eapply recorded_process_lines; [exact Hrun|].
    eapply recorded_after_entry; eassumption.
  - eapply IH; eassumption.
Qed.

(** X2: after any lines of a file, an entry is taken for a duplicate
    exactly when one of those lines had an exported level, the same func
    and the same composed message: nothing is suppressed that was not seen
    before, and everything seen before is. *)
Theorem duplicate_iff_seen_before :
  forall suite_name lines fc entry,
    process_lines suite_name lines [] = Ok fc ->
    (is_duplicate_entry entry (entry_message entry) fc = true <->
     exists line earlier,
       In line lines /\
       parse_line line = Some (Ok earlier) /\
       py_in (level earlier) EXPORTED_LOG_LEVELS = true /\
       func earlier = func entry /\
       entry_message earlier = entry_message entry).
Proof.
  intros suite_name lines fc entry Hrun. rewrite recorded_is_duplicate. split.
  - intro Hrec.
    destruct (recorded_process_lines_inv _ _ _ _ _ _ Hrun Hrec) as [H | H]; [|exact H].
    discriminate.
  - intros (line & earlier & Hin & Hparse & Hlevel & Hfunc & Hmsg).
    rewrite <- Hfunc, <- Hmsg.
    now apply (all_recorded suite_name lines [] fc Hrun line earlier).
Qed.

Lemma duplicate_iff_seen_before_witness :
  is_duplicate_entry sample_fatal_again (entry_message sample_fatal_again)
    sample_after_first = true <->
  exists line earlier,
    In line [sample_first_line] /\
    parse_line line = Some (Ok earlier) /\
    py_in (level earlier) EXPORTED_LOG_LEVELS = true /\
    func earlier = func sample_fatal_again /\
    entry_message earlier = entry_message sample_fatal_again.
Proof.
  apply (duplicate_iff_seen_before "suite" [sample_first_line] sample_after_first
           sample_fatal_again).
  vm_compute. reflexivity.
Defined.

(** ** Feeding lines again *)

Lemma process_lines_seen suite_name again :
  forall fc,
    (forall line entry,
       In line again ->
       parse_line line = Some (Ok entry) ->
       py_in (level entry) EXPORTED_LOG_LEVELS = true ->
       recorded fc (func entry) (entry_message entry) = true) ->
    process_lines suite_name again fc = Ok fc /\
    emitted_all suite_name again fc = [].
Proof.
  induction again as [|line rest IH]; intros fc Hseen; simpl; [now split|].
  assert (Hstep : process_line suite_name fc line = Ok fc /\
                  emitted_by suite_name fc line = []).
  { destruct (parse_line_cases line) as [Hnone | [entry Hsome]].
    - now apply process_line_unparsed.
    - destruct (py_in (level entry) EXPORTED_LOG_LEVELS) eqn:Hlevel.
      + destruct (recorded_line_adds_nothing suite_name fc line entry Hsome)
          as (H1 & H2 & _); [|now split].
        apply (Hseen line entry); [now left | assumption | assumption].
      + now apply (process_line_other_level suite_name fc line entry). }
  destruct Hstep as [-> ->]. simpl.
  apply IH. intros l e Hin. apply Hseen. now right.
Qed.

(** X3: lines that already occurred in the file add nothing when they
    come again: processing [lines] followed by any lines taken from
    [lines] gives the same cases as processing [lines] alone.  In
    particular a log written out twice yields the cases of one copy. *)
Theorem repeated_lines_add_nothing :
  forall suite_name lines again,
    incl again lines ->
    process_lines suite_name (lines ++ again) [] = process_lines suite_name lines [] /\
    emitted_all suite_name (lines ++ again) [] = emitted_all suite_name lines [].
Proof.
  intros suite_name lines again Hincl.
  destruct (process_lines_total suite_name lines []) as [fc Hfc].
  assert (Hseen : forall l, incl l lines ->
            process_lines suite_name l fc = Ok fc /\ emitted_all suite_name l fc = []).
  { intros l Hl. apply process_lines_seen. intros line entry Hin.
    apply (all_recorded suite_name lines [] fc Hfc). now apply Hl. }
  split.
  - rewrite process_lines_app, Hfc. simpl. now apply Hseen.
  - assert (Happ : forall l1 l2 fc0 fc1,
               process_lines suite_name l1 fc0 = Ok fc1 ->
               emitted_all suite_name (l1 ++ l2) fc0 =
               emitted_all suite_name l1 fc0 ++ emitted_all suite_name l2 fc1).
    { induction l1 as [|l l1 IH]; intros l2 fc0 fc1; simpl.
      - now intros [= ->].
      - destruct (process_line suite_name fc0 l) as [fc0'|]; simpl; [|discriminate].
        intro H. now rewrite (IH l2 fc0' fc1 H), app_assoc. }
    rewrite (Happ lines again [] fc Hfc).
    destruct (Hseen again Hincl) as [_ ->]. apply app_nil_r.
Qed.

Lemma repeated_lines_add_nothing_witness :
  process_lines "suite"
    ([sample_first_line; install_line_spaced] ++ [install_line_spaced; sample_first_line]) []
  = process_lines "suite" [sample_first_line; install_line_spaced] [] /\
  emitted_all "suite"
    ([sample_first_line; install_line_spaced] ++ [install_line_spaced; sample_first_line]) []
  = emitted_all "suite" [sample_first_line; install_line_spaced] [].
Proof.
  apply (repeated_lines_add_nothing "suite" [sample_first_line; install_line_spaced]
           [install_line_spaced; sample_first_line]).
  intros l [<- | [<- | []]]; simpl; tauto.
Defined.

(** ** Cases are only ever appended *)





(** ** The first case of a file *)

Lemma get_log_entry_case_fresh_cons entry fc suite_name :
  is_duplicate_entry entry (entry_message entry) fc = false ->
  exists rest, get_log_entry_case entry fc suite_name = failing_case entry suite_name :: rest.
Proof.
  intro Hdup. rewrite (get_log_entry_case_fresh _ _ _ Hdup). cbn zeta.
  destruct (py_eqb (level entry) (Some "fatal")); eexists; reflexivity.
Qed.

Lemma head_stable_line suite_name k0 c0 cs0 (d : fail_cases_t) fc' line :
  process_line suite_name ((k0, c0 :: cs0) :: d) line = Ok fc' ->
  exists cs0' d', fc' = (k0, c0 :: cs0') :: d'.
Proof.
  intro Hstep.
  destruct (parse_line_cases line) as [Hnone | [entry Hsome]].
  { destruct (process_line_unparsed suite_name ((k0, c0 :: cs0) :: d) _ Hnone) as [H _].
    exists cs0, d. congruence. }
  destruct (py_in (level entry) EXPORTED_LOG_LEVELS) eqn:Hlevel.
  2:{ destruct (process_line_other_level suite_name ((k0, c0 :: cs0) :: d) _ _ Hsome Hlevel)
        as [H _].
      exists cs0, d. congruence. }
  destruct (process_line_exported suite_name ((k0, c0 :: cs0) :: d) _ _ Hsome Hlevel) as [H _].
  rewrite H in Hstep. injection Hstep as <-.
  destruct (is_duplicate_entry entry (entry_message entry) ((k0, c0 :: cs0) :: d));
    [now exists cs0, d|].
  unfold Dict.get_default. simpl.
  destruct (py_eqb k0 (func entry)); simpl; eauto.
Qed.

Lemma head_stable_lines suite_name lines :
  forall k0 c0 cs0 (d : fail_cases_t) fc',
    process_lines suite_name lines ((k0, c0 :: cs0) :: d) = Ok fc' ->
    exists cs0' d', fc' = (k0, c0 :: cs0') :: d'.
Proof.
  induction lines as [|line rest IH]; intros k0 c0 cs0 d fc'; simpl.
  - intros [= <-]. eauto.
  - destruct (process_line suite_name ((k0, c0 :: cs0) :: d) line) as [fc1|] eqn:E;
      simpl; [|discriminate].
    destruct (head_stable_line _ _ _ _ _ _ _ E) as (cs1 & d1 & ->).
    apply IH.
Qed.

(** X5: the first case of a file is the failing case of its first line
    with an exported level, so the timestamp the suite gets is the time of
    that line; a file without such a line has no case at all. *)
Theorem first_case_is_first_exported_line :
  forall suite_name lines fc,
    process_lines suite_name lines [] = Ok fc ->
    (fc = [] /\ flatten fc = [] /\ nothing_exported lines) \/
    (exists pre line post entry t others,
       lines = pre ++ line :: post /\
       nothing_exported pre /\
       parse_line line = Some (Ok entry) /\
       py_in (level entry) EXPORTED_LOG_LEVELS = true /\
       time entry = Some t /\
       flatten fc = failing_case entry suite_name :: others /\
       TestCase.timestamp (failing_case entry suite_name) = Some t).
Proof.
  intros suite_name lines. induction lines as [|line rest IH]; intros fc; simpl.
  - intros [= <-]. left. repeat split. intros l e [].
  - destruct (parse_line_cases line) as [Hnone | [entry Hsome]].
    + destruct (process_line_unparsed suite_name [] _ Hnone) as [-> _]. simpl.
      intro Hrest. destruct (IH fc Hrest) as [(H1 & H2 & H3) | H].
      * left. repeat split; try assumption.
        intros l e [<- | Hin] Hp; [congruence | now apply (H3 l e)].
      * right. destruct H as (pre & l & post & e & t & others & -> & Hpre & H).
        exists (line :: pre), l, post, e, t, others. split; [reflexivity|].
        split; [|exact H].
        intros l0 e0 [<- | Hin] Hp; [congruence | now apply (Hpre l0 e0)].
    + destruct (py_in (level entry) EXPORTED_LOG_LEVELS) eqn:Hlevel.
      * destruct (process_line_exported suite_name [] _ _ Hsome Hlevel) as [-> _].
        assert (Hdup : is_duplicate_entry entry (entry_message entry) [] = false)
          by reflexivity.
        rewrite Hdup. simpl rbind.
        destruct (get_log_entry_case_fresh_cons entry [] suite_name Hdup) as [more ->].
        unfold Dict.get_default. simpl.
        intro Hrest.
        destruct (head_stable_lines _ _ _ _ _ _ _ Hrest) as (cs' & d' & ->).
        right.
        destruct (parse_line_entry _ _ Hsome) as (t & l & m & f & fl & err & [= ->]).
        exists [], line, rest,
          (mkLogEntry (Some t) (Some l) (Some m) (Some f) (Some fl) err), t,
          (cs' ++ flatten d').
        repeat split; try assumption; try reflexivity.
        intros l0 e0 [].
      * destruct (process_line_other_level suite_name [] _ _ Hsome Hlevel) as [-> _]. simpl.
        intro Hrest. destruct (IH fc Hrest) as [(H1 & H2 & H3) | H].
        -- left. repeat split; try assumption.
           intros l e [<- | Hin] Hp; [|now apply (H3 l e)].
           rewrite Hsome in Hp. now injection Hp as <-.
        -- right. destruct H as (pre & l & post & e & t & others & -> & Hpre & H).
           exists (line :: pre), l, post, e, t, others. split; [reflexivity|].
           split; [|exact H].
           intros l0 e0 [<- | Hin] Hp; [|now apply (Hpre l0 e0)].
           rewrite Hsome in Hp. now injection Hp as <-.
Qed.

Lemma first_case_is_first_exported_line_witness :
  let lines := [log_line "t0" "info" "started" "main" "main.go:1" " "; sample_first_line] in
  (sample_after_first = [] /\ flatten sample_after_first = [] /\ nothing_exported lines) \/
  (exists pre line post entry t others,
     lines = pre ++ line :: post /\
     nothing_exported pre /\
     parse_line line = Some (Ok entry) /\
     py_in (level entry) EXPORTED_LOG_LEVELS = true /\
     time entry = Some t /\
     flatten sample_after_first = failing_case entry "suite" :: others /\
     TestCase.timestamp (failing_case entry "suite") = Some t).
Proof.
  intro lines.
  apply (first_case_is_first_exported_line "suite" lines sample_after_first).
  vm_compute. reflexivity.
Defined.

(** ** What the cases of a suite look like *)

Lemma case_of_suite_entry suite_name fc line entry :
  parse_line line = Some (Ok entry) ->
  py_in (level entry) EXPORTED_LOG_LEVELS = true ->
  Forall (case_of_suite suite_name) (get_log_entry_case entry fc suite_name).
Proof.
  intros Hsome Hlevel.
  destruct (parse_line_entry _ _ Hsome) as (t & l & m & f & fl & err & [= ->]).
  destruct (is_duplicate_entry (mkLogEntry (Some t) (Some l) (Some m) (Some f) (Some fl) err)
              (entry_message (mkLogEntry (Some t) (Some l) (Some m) (Some f) (Some fl) err)) fc)
    eqn:Hdup.
  - rewrite (get_log_entry_case_duplicate _ _ _ Hdup). constructor.
  - rewrite (get_log_entry_case_fresh _ _ _ Hdup). cbn zeta.
    assert (Hl : In l EXPORTED_LOG_LEVELS).
    { apply py_in_exported in Hlevel. simpl in *.
      destruct Hlevel as [[= ->] | [= ->]]; tauto. }
    assert (Hfailing : case_of_suite suite_name
              (TestCase.mk (Some f) (Some suite_name) None None None (Some t) None
                 (Some suite_name) []
                 [mkCaseFailure
                    (entry_message (mkLogEntry (Some t) (Some l) (Some m) (Some f) (Some fl) err))
                    (entry_message (mkLogEntry (Some t) (Some l) (Some m) (Some f) (Some fl) err))
                    (Some l)] [])).
    { unfold case_of_suite. simpl. repeat split; eauto. }
    assert (Hflaky : case_of_suite suite_name
              (TestCase.init (Some f) (Some suite_name) (Some suite_name) None)).
    { unfold case_of_suite. simpl. repeat split; eauto. }
    cbn [level func time]. destruct (py_eqb (Some l) (Some "fatal"));
      repeat (constructor; try assumption).
Qed.

Lemma case_of_suite_emitted suite_name lines :
  forall fc, Forall (case_of_suite suite_name) (emitted_all suite_name lines fc).
Proof.
  induction lines as [|line rest IH]; intro fc; simpl; [constructor|].
  apply Forall_app. split.
  - destruct (parse_line_cases line) as [Hnone | [entry Hsome]].
    + destruct (process_line_unparsed suite_name fc _ Hnone) as [_ ->]. constructor.
    + destruct (py_in (level entry) EXPORTED_LOG_LEVELS) eqn:Hlevel.
      * destruct (process_line_exported suite_name fc _ _ Hsome Hlevel) as [_ ->].
        now apply (case_of_suite_entry suite_name fc line).
      * destruct (process_line_other_level suite_name fc _ _ Hsome Hlevel) as [_ ->].
        constructor.
  - destruct (process_line suite_name fc line); [apply IH | constructor].
Qed.

(** X6: every case of a file's suite has the suite name as classname and
    as category, has a name, has no error or skip record, and either has no
    failure or has exactly one, whose message and output are equal and
    whose type is "fatal" or "error". *)
Theorem every_case_belongs_to_suite :
  forall suite_name lines fc,
    process_lines suite_name lines [] = Ok fc ->
    Forall (case_of_suite suite_name) (flatten fc).
Proof.
  intros suite_name lines fc Hrun.
  pose proof (flatten_process_lines suite_name lines [] fc Hrun) as Hperm.
  simpl in Hperm. apply Permutation_sym in Hperm.
  apply (Permutation_Forall Hperm). apply case_of_suite_emitted.
Qed.

Lemma every_case_belongs_to_suite_witness :
  Forall (case_of_suite "suite") (flatten sample_after_first).
Proof.
  apply (every_case_belongs_to_suite "suite" [sample_first_line] sample_after_first).
  vm_compute. reflexivity.
Defined.

(** ** Failing cases and their siblings *)

Lemma paired_app a b : paired a -> paired b -> paired (a ++ b).
Proof.
  intros Ha Hb. induction Ha; simpl.
  - exact Hb.
  - eapply paired_fatal; eassumption.
  - eapply paired_error; eassumption.
Qed.

Lemma paired_entry suite_name fc entry :
  py_in (level entry) EXPORTED_LOG_LEVELS = true ->
  paired (get_log_entry_case entry fc suite_name).
Proof.
  intro Hlevel.
  destruct (is_duplicate_entry entry (entry_message entry) fc) eqn:Hdup.
  - rewrite (get_log_entry_case_duplicate _ _ _ Hdup). constructor.
  - rewrite (get_log_entry_case_fresh _ _ _ Hdup). cbn zeta.
    apply py_in_exported in Hlevel. destruct Hlevel as [Hl | Hl]; rewrite Hl; simpl.
    + eapply paired_fatal; [reflexivity | reflexivity | constructor].
    + eapply paired_error; try reflexivity. constructor.
Qed.

Lemma blocks_process_line suite_name fc fc' line :
  process_line suite_name fc line = Ok fc' ->
  (forall k cs, In (k, cs) fc -> cs <> [] /\ paired cs) ->
  forall k cs, In (k, cs) fc' -> cs <> [] /\ paired cs.
Proof.
  intros Hstep Hinv.
  destruct (parse_line_cases line) as [Hnone | [entry Hsome]].
  { destruct (process_line_unparsed suite_name fc _ Hnone) as [H _].
    assert (fc' = fc) by congruence. now subst. }
  destruct (py_in (level entry) EXPORTED_LOG_LEVELS) eqn:Hlevel.
  2:{ destruct (process_line_other_level suite_name fc _ _ Hsome Hlevel) as [H _].
      assert (fc' = fc) by congruence. now subst. }
  destruct (process_line_exported suite_name fc _ _ Hsome Hlevel) as [H _].
  rewrite H in Hstep. injection Hstep as <-.
  destruct (is_duplicate_entry entry (entry_message entry) fc) eqn:Hdup; [exact Hinv|].
  intros k cs Hin. apply In_setitem in Hin as [[-> ->] | Hin]; [|exact (Hinv k cs Hin)].
  split.
  - destruct (get_log_entry_case_fresh_cons entry fc suite_name Hdup) as [more ->].
    intro Hnil. apply app_eq_nil in Hnil as [_ Hnil]. discriminate.
  - apply paired_app; [|now apply paired_entry].
    apply get_default_ind; [constructor|]. intros cs Hin.
    exact (proj2 (Hinv (func entry) cs Hin)).
Qed.

Lemma blocks_process_lines suite_name lines :
  forall fc fc',
    process_lines suite_name lines fc = Ok fc' ->
    (forall k cs, In (k, cs) fc -> cs <> [] /\ paired cs) ->
    forall k cs, In (k, cs) fc' -> cs <> [] /\ paired cs.
Proof.
  induction lines as [|line rest IH]; intros fc fc'; simpl.
  - now intros [= <-].
  - destruct (process_line suite_name fc line) as [fc1|] eqn:E; simpl; [|discriminate].
    intros Hrest Hinv. apply (IH fc1 fc' Hrest).
    now apply (blocks_process_line suite_name fc fc1 line).
Qed.

Lemma paired_counts cs :
  paired cs ->
  List.length (filter without_failure cs) = List.length (filter (failing_of_type "error") cs) /\
  List.length cs = List.length (filter (failing_of_type "fatal") cs)
                   + 2 * List.length (filter (failing_of_type "error") cs).
Proof.
  induction 1 as [| c f rest Hf Ht _ [IH1 IH2] | c f s rest Hf Ht Hs _ _ _ [IH1 IH2]].
  - now split.
  - assert (H1 : without_failure c = false) by (unfold without_failure; now rewrite Hf).
    assert (H2 : failing_of_type "error" c = false)
      by (unfold failing_of_type; now rewrite Hf, Ht).
    assert (H3 : failing_of_type "fatal" c = true)
      by (unfold failing_of_type; now rewrite Hf, Ht).
    cbn [filter]. rewrite H1, H2, H3. cbn [List.length]. split; lia.
  - assert (H1 : without_failure c = false) by (unfold without_failure; now rewrite Hf).
    assert (H2 : failing_of_type "error" c = true)
      by (unfold failing_of_type; now rewrite Hf, Ht).
    assert (H3 : failing_of_type "fatal" c = false)
      by (unfold failing_of_type; now rewrite Hf, Ht).
    assert (H4 : without_failure s = true) by (unfold without_failure; now rewrite Hs).
    assert (H5 : forall lvl, failing_of_type lvl s = false)
      by (intro lvl; unfold failing_of_type; now rewrite Hs).
    cbn [filter]. rewrite H1, H2, H3, H4, !H5. cbn [List.length]. split; lia.
Qed.

(** X7: the cases of a file come in blocks: a failing case of type
    "fatal" stands alone, a failing case of type "error" is followed at
    once by its sibling, which has the same name, no failure and no
    timestamp.  So there are as many cases without failure as failing
    cases of type "error", and the suite has one case per fatal failure
    and two per error failure. *)
Theorem cases_come_in_blocks :
  forall suite_name lines fc,
    process_lines suite_name lines [] = Ok fc ->
    paired (flatten fc) /\
    List.length (filter without_failure (flatten fc))
    = List.length (filter (failing_of_type "error") (flatten fc)) /\
    List.length (flatten fc)
    = List.length (filter (failing_of_type "fatal") (flatten fc))
      + 2 * List.length (filter (failing_of_type "error") (flatten fc)).
Proof.
  intros suite_name lines fc Hrun.
  assert (Hblocks : forall k cs, In (k, cs) fc -> cs <> [] /\ paired cs).
  { exact (blocks_process_lines suite_name lines [] fc Hrun
             (fun k cs (H : In (k, cs) []) => match H with end)). }
  assert (Hpaired : paired (flatten fc)).
  { clear Hrun. induction fc as [|[k cs] fc IH]; [constructor|].
    rewrite flatten_cons. apply paired_app.
    - exact (proj2 (Hblocks k cs (or_introl eq_refl))).
    - apply IH. intros k' cs' Hin. exact (Hblocks k' cs' (or_intror Hin)). }
  split; [exact Hpaired|]. now apply paired_counts.
Qed.

Lemma cases_come_in_blocks_witness :
  paired (flatten sample_after_first) /\
  List.length (filter without_failure (flatten sample_after_first))
  = List.length (filter (failing_of_type "error") (flatten sample_after_first)) /\
  List.length (flatten sample_after_first)
  = List.length (filter (failing_of_type "fatal") (flatten sample_after_first))
    + 2 * List.length (filter (failing_of_type "error") (flatten sample_after_first)).
Proof.
  apply (cases_come_in_blocks "suite" [sample_first_line] sample_after_first).
  vm_compute. reflexivity.
Defined.

(** X8: no function is left with an empty list of cases: the list the
    loop creates for a new function is filled by the same line, and its
    first case is a failing case named after the function. *)
Theorem no_function_without_failing_case :
  forall suite_name lines fc k cs,
    process_lines suite_name lines [] = Ok fc ->
    In (k, cs) fc ->
    exists c rest,
      cs = c :: rest /\ TestCase.failures c <> [] /\ TestCase.name c = k.
Proof.
  intros suite_name lines fc k cs Hrun Hin.
  destruct (blocks_process_lines suite_name lines [] fc Hrun
              (fun k cs (H : In (k, cs) []) => match H with end) k cs Hin) as [Hne Hp].
  destruct (invariants_process_lines suite_name lines [] fc Hrun
              (conj grouped_empty unique_messages_empty)) as [[_ Hnames] _].
  pose proof (Hnames k cs Hin) as Hall.
  destruct Hp as [| c f rest Hf _ _ | c f s rest Hf _ _ _ _ _]; [contradiction| |].
  - exists c, rest. inversion Hall; subst. rewrite Hf.
    split; [reflexivity|]. split; [discriminate | reflexivity].
  - exists c, (s :: rest). inversion Hall; subst. rewrite Hf.
    split; [reflexivity|]. split; [discriminate | reflexivity].
Qed.

Lemma no_function_without_failing_case_witness :
  exists c rest,
    [TestCase.mk (Some "X") (Some "suite") None None None (Some "t1") None
       (Some "suite") []
       [mkCaseFailure ("boom" ++ nl)%string ("boom" ++ nl)%string (Some "error")] [];
     TestCase.init (Some "X") (Some "suite") (Some "suite") None] = c :: rest /\
    TestCase.failures c <> [] /\ TestCase.name c = Some "X".
Proof.
  apply (no_function_without_failing_case "suite" [sample_first_line] sample_after_first).
  - vm_compute. reflexivity.
  - left. reflexivity.
Defined.

(** ** The export as a whole *)

Lemma build_suites_cons w file rest suites log :
  build_suites w (file :: rest) suites log =
  match get_failure_cases w file (suite_name_of file)
          (log ++ [Logged ("Creating test suite from " ++ suite_name_of file ++ ".log")])
  with
  | (Ok test_cases, log') =>
      build_suites w rest
        (suites ++ [TestSuite.mk (suite_name_of file) test_cases
                      match test_cases with
                      | c :: _ => TestCase.timestamp c
                      | [] => None
                      end]) log'
  | (Raise e, log') => (Raise e, log')
  end.
Proof. reflexivity. Qed.

Lemma build_suites_app w l1 :
  forall l2 suites log,
    build_suites w (l1 ++ l2) suites log =
    match build_suites w l1 suites log with
    | (Ok suites', log') => build_suites w l2 suites' log'
    | (Raise e, log') => (Raise e, log')
    end.
Proof.
  induction l1 as [|file rest IH]; intros l2 suites log; [reflexivity|].
  rewrite <- app_comm_cons, !build_suites_cons.
  destruct (get_failure_cases w file (suite_name_of file)
              (log ++ [Logged ("Creating test suite from " ++ suite_name_of file ++ ".log")]))
    as [[cases | e] log'].
  - apply IH.
  - reflexivity.
Qed.

Lemma prefix_append p s : prefix p (p ++ s) = true.
Proof.
  induction p as [|a p IH]; simpl.
  - now destruct s.
  - destruct (Ascii.ascii_dec a a) as [_ | N]; [exact IH | now elim N].
Qed.

Lemma filter_none (A : Type) (f : A -> bool) (l : list A) :
  (forall a, In a l -> f a = false) -> filter f l = [].
Proof.
  induction l as [|a l IH]; intro H; simpl; [reflexivity|].
  rewrite (H a (or_introl eq_refl)). apply IH. intros b Hb. apply H. now right.
Qed.

(** X9: when the source directory holds no service log (it is empty, or
    does not exist, or holds other files only), the report is still
    generated and written, for zero suites. *)
Theorem export_without_service_logs :
  forall w source_dir report_dir log names xml_report,
    scandir w source_dir = Ok names ->
    (forall n, In n names -> fnmatch SERVICE_LOGS n = false) ->
    to_xml_report_string w [] = Ok xml_report ->
    open_w w (report_file w report_dir) = Ok tt ->
    export_service_logs_to_junit_suites w source_dir report_dir log =
    (write w (report_file w report_dir) xml_report,
     log ++ [Logged "Generating xml file for 0 suites";
             Logged ("Exporting 0 suites xml-report with "
                     ++ str_of_nat (String.length xml_report) ++ " characters to "
                     ++ Path.to_str (report_file w report_dir))]).
Proof.
  intros w source_dir report_dir log names xml_report Hscan Hnone Hxml Hopen.
  unfold export_service_logs_to_junit_suites, glob, io_bind, lift, log_info, io_ret.
  rewrite Hscan. cbn [rbind].
  change "k8s_assisted-service*.log" with SERVICE_LOGS.
  rewrite (filter_none _ _ _ Hnone). cbn [map build_suites List.length].
  unfold io_ret. rewrite Hxml. fold (report_file w report_dir). rewrite Hopen.
  now rewrite <- app_assoc.
Qed.

Lemma export_without_service_logs_witness :
  export_service_logs_to_junit_suites
    (mkWorld (fun _ => Ok tt) (fun _ => Ok ["notes.txt"]) (fun _ => Raise PermissionError)
       "0f8fad5b-d9cb-469f-a165-70867728950e" (fun _ => Ok "<testsuites/>")
       (fun _ => Ok tt) (fun _ _ => Ok tt))
    ["logs"] ["reports"] [] =
  (Ok tt,
   [] ++ [Logged "Generating xml file for 0 suites";
          Logged ("Exporting 0 suites xml-report with "
                  ++ str_of_nat (String.length "<testsuites/>") ++ " characters to "
                  ++ Path.to_str ["reports"; "junit_log_parser_0f8fad5b.xml"])]).
Proof.
  apply (export_without_service_logs
           (mkWorld (fun _ => Ok tt) (fun _ => Ok ["notes.txt"]) (fun _ => Raise PermissionError)
              "0f8fad5b-d9cb-469f-a165-70867728950e" (fun _ => Ok "<testsuites/>")
              (fun _ => Ok tt) (fun _ _ => Ok tt))
           ["logs"] ["reports"] [] ["notes.txt"] "<testsuites/>").
  - reflexivity.
  - intros n [<- | []]. reflexivity.
  - reflexivity.
  - reflexivity.
Defined.

(** X10: one service log that cannot be read loses the whole report: the
    export stops at that file with the exception of the read, after the
    files before it were processed, and no report is generated. *)
Theorem unreadable_log_aborts_export :
  forall w source_dir report_dir log pre file post e,
    glob w source_dir SERVICE_LOGS = Ok (pre ++ file :: post) ->
    (forall f, In f pre -> exists lines, read_lines w f = Ok lines) ->
    read_lines w file = Raise e ->
    exists log',
      export_service_logs_to_junit_suites w source_dir report_dir log =
      (Raise e,
       log' ++ [Logged ("Creating test suite from " ++ suite_name_of file ++ ".log")]) /\
      forall msg, In (Logged msg) log' -> In (Logged msg) log \/
                                          prefix "Creating test suite from " msg = true \/
                                          prefix "Found " msg = true.
Proof.
  intros w source_dir report_dir log pre file post e Hglob Hpre Hread.
  unfold export_service_logs_to_junit_suites, io_bind at 1. unfold lift at 1.
  change "k8s_assisted-service*.log" with SERVICE_LOGS. rewrite Hglob.
  unfold io_bind at 1. rewrite build_suites_app.
  assert (Hrun : forall files suites log0,
             (forall f, In f files -> exists lines, read_lines w f = Ok lines) ->
             exists built log1,
               build_suites w files suites log0 = (Ok built, log1) /\
               forall msg, In (Logged msg) log1 ->
                           In (Logged msg) log0 \/
                           prefix "Creating test suite from " msg = true \/
                           prefix "Found " msg = true).
  { induction files as [|f files IH]; intros suites log0 Hok.
    - exists suites, log0. split; [reflexivity | tauto].
    - destruct (Hok f (or_introl eq_refl)) as [lines Hlines].
      rewrite build_suites_cons.
      destruct (get_failure_cases_run w f (suite_name_of f)
                  (log0 ++ [Logged ("Creating test suite from " ++ suite_name_of f ++ ".log")])
                  lines Hlines) as (fc & _ & ->).
      edestruct IH as (built & log1 & Hb & Hlog); [intros g Hg; apply Hok; now right|].
      exists built, log1. split; [exact Hb|].
      intros msg Hin. apply Hlog in Hin as [Hin | Hin]; [|tauto].
      apply in_app_or in Hin as [Hin | [[= <-] | []]]; [|right; right; exact (prefix_append "Found " _)].
      apply in_app_or in Hin as [Hin | [[= <-] | []]];
        [tauto | right; left; exact (prefix_append "Creating test suite from " _)]. }
  destruct (Hrun pre [] log Hpre) as (built & log1 & -> & Hlog).
  exists log1. split; [|exact Hlog].
  rewrite build_suites_cons.
  unfold get_failure_cases, io_bind at 1. unfold lift at 1. now rewrite Hread.
Qed.

Lemma unreadable_log_aborts_export_witness :
  exists log',
    export_service_logs_to_junit_suites sample_world_unreadable ["logs"] ["reports"] [] =
    (Raise PermissionError,
     log' ++ [Logged ("Creating test suite from "
                      ++ suite_name_of ["logs"; "k8s_assisted-service-abc.log"] ++ ".log")]) /\
    forall msg, In (Logged msg) log' -> In (Logged msg) [] \/
                                        prefix "Creating test suite from " msg = true \/
                                        prefix "Found " msg = true.
Proof.
  apply (unreadable_log_aborts_export sample_world_unreadable ["logs"] ["reports"] []
           [] ["logs"; "k8s_assisted-service-abc.log"]
           [["logs"; "k8s_assisted-service-quiet.log"]] PermissionError).
  - vm_compute. reflexivity.
  - intros f [].
  - reflexivity.
Defined.

(** Files the glob does not return are never opened. *)
Lemma build_suites_with_read_lines w r files :
  Forall (fun file => r file = read_lines w file) files ->
  forall suites log,
    build_suites (with_read_lines w r) files suites log = build_suites w files suites log.
Proof.
  induction 1 as [|file rest Hfile _ IH]; intros suites log; [reflexivity|].
  rewrite !build_suites_cons.
  assert (Hget : forall l, get_failure_cases (with_read_lines w r) file (suite_name_of file) l
                           = get_failure_cases w file (suite_name_of file) l).
  { intro l. unfold get_failure_cases, io_bind, lift. cbn [read_lines with_read_lines].
    now rewrite Hfile. }
  rewrite Hget.
  destruct (get_failure_cases w file (suite_name_of file)
              (log ++ [Logged ("Creating test suite from " ++ suite_name_of file ++ ".log")]))
    as [[cases | e] log']; [apply IH | reflexivity].
Qed.

(** X11: only files whose name matches the pattern are read: changing
    what reading any other file gives, an error included, changes nothing
    in the export. *)
Theorem other_files_never_read :
  forall w r source_dir report_dir log,
    (forall p, fnmatch SERVICE_LOGS (Path.name p) = true -> r p = read_lines w p) ->
    export_service_logs_to_junit_suites (with_read_lines w r) source_dir report_dir log =
    export_service_logs_to_junit_suites w source_dir report_dir log.
Proof.
  intros w r source_dir report_dir log Hsame.
  unfold export_service_logs_to_junit_suites.
  change "k8s_assisted-service*.log" with SERVICE_LOGS.
  unfold io_bind at 1 7. unfold lift at 1 6.
  change (glob (with_read_lines w r) source_dir SERVICE_LOGS)
    with (glob w source_dir SERVICE_LOGS).
  destruct (glob w source_dir SERVICE_LOGS) as [files|e] eqn:Hglob; [|reflexivity].
  unfold io_bind at 1 6.
  rewrite build_suites_with_read_lines; [reflexivity|].
  pose proof (glob_names _ _ _ _ Hglob) as Hnames.
  apply Forall_forall. intros file Hin. apply Hsame.
  rewrite Forall_forall in Hnames. now apply Hnames.
Qed.

Lemma other_files_never_read_witness :
  export_service_logs_to_junit_suites
    (with_read_lines sample_world
       (fun p => if fnmatch SERVICE_LOGS (Path.name p) then read_lines sample_world p
                 else Raise PermissionError))
    ["logs"] ["reports"] [] =
  export_service_logs_to_junit_suites sample_world ["logs"] ["reports"] [].
Proof.
  apply (other_files_never_read sample_world
           (fun p => if fnmatch SERVICE_LOGS (Path.name p) then read_lines sample_world p
                     else Raise PermissionError)).
  intros p Hp. now rewrite Hp.
Defined.

(** ** Which files are service logs *)

Lemma fnmatch_star_intro pat a b :
  fnmatch pat b = true -> fnmatch (String "*"%char pat) (a ++ b) = true.
Proof.
  intro Hb. induction a as [|c a IH].
  - simpl. destruct b; now rewrite Hb.
  - simpl in *. now rewrite IH, orb_true_r.
Qed.

Lemma fnmatch_SERVICE_LOGS_intro mid :
  fnmatch SERVICE_LOGS ("k8s_assisted-service" ++ mid ++ ".log") = true.
Proof.
  unfold SERVICE_LOGS.
  change (fnmatch "k8s_assisted-service*.log" ("k8s_assisted-service" ++ mid ++ ".log"))
    with (fnmatch (String "*"%char ".log") (mid ++ ".log")).
  now apply fnmatch_star_intro.
Qed.

(** X12: the files the export processes are exactly the entries of the
    source directory named k8s_assisted-service, then any text, then .log;
    each is taken once, as a path inside the source directory; when the
    directory cannot be scanned the exception is passed on. *)
Theorem glob_service_logs :
  forall w source_dir,
    match scandir w source_dir with
    | Raise e => glob w source_dir SERVICE_LOGS = Raise e
    | Ok names =>
        exists files,
          glob w source_dir SERVICE_LOGS = Ok files /\
          forall file,
            In file files <->
            exists mid,
              In ("k8s_assisted-service" ++ mid ++ ".log")%string names /\
              file = Path.joinpath source_dir ("k8s_assisted-service" ++ mid ++ ".log")
    end.
Proof.
  intros w source_dir. unfold glob.
  destruct (scandir w source_dir) as [names|e]; [|reflexivity].
  eexists. split; [reflexivity|]. intro file. rewrite in_map_iff. split.
  - intros (n & <- & Hn). apply filter_In in Hn as [Hin Hm].
    destruct (fnmatch_SERVICE_LOGS _ Hm) as [mid ->]. now exists mid.
  - intros (mid & Hin & ->). eexists. split; [reflexivity|].
    apply filter_In. split; [exact Hin | apply fnmatch_SERVICE_LOGS_intro].
Qed.

(** ** Two files, one suite name *)

Lemma replace_from_skip old new x s :
  replace_from old new (String.length x) (x ++ s) = replace_from old new 0 s.
Proof.
  induction x as [|c x IH]; simpl; [|exact IH].
  destruct s as [|c t]; reflexivity.
Qed.

Lemma replace_from_occurrence a old' new s :
  replace_from (String a old') new 0 (String a old' ++ s) =
  (new ++ replace_from (String a old') new 0 s)%string.
Proof.
  cbn [append replace_from].
  change (if prefix (String a old') (String a (old' ++ s)) then _ else _)
    with (if prefix (String a old') (String a old' ++ s)
          then (new ++ replace_from (String a old') new
                         (String.length (String a old') - 1) (old' ++ s))%string
          else String a (replace_from (String a old') new 0 (old' ++ s))).
  rewrite prefix_append. cbn [String.length]. rewrite Nat.sub_succ, Nat.sub_0_r.
  now rewrite replace_from_skip.
Qed.

(** X13: two different service logs of one directory can get the same
    suite name: putting k8s_ once more right after the fixed part of the
    name gives another file that matches the pattern and has the suite
    name of the first. *)
Theorem suite_names_collide :
  forall source_dir mid,
    let a := Path.joinpath source_dir ("k8s_assisted-service" ++ mid ++ ".log") in
    let b := Path.joinpath source_dir ("k8s_assisted-service" ++ "k8s_" ++ mid ++ ".log") in
    a <> b /\
    fnmatch SERVICE_LOGS (Path.name a) = true /\
    fnmatch SERVICE_LOGS (Path.name b) = true /\
    suite_name_of a = suite_name_of b.
Proof.
  intros source_dir mid a b.
  assert (Hna : Path.name a = ("k8s_assisted-service" ++ mid ++ ".log")%string)
    by (unfold a, Path.name, Path.joinpath; apply last_last).
  assert (Hnb : Path.name b = ("k8s_assisted-service" ++ ("k8s_" ++ mid) ++ ".log")%string)
    by (unfold b, Path.name, Path.joinpath; apply last_last).
  split; [|split; [|split]].
  - intro Heq. unfold a, b, Path.joinpath in Heq. apply app_inj_tail in Heq as [_ Heq].
    apply (f_equal String.length) in Heq. rewrite !length_append in Heq. simpl in Heq. lia.
  - rewrite Hna. apply fnmatch_SERVICE_LOGS_intro.
  - rewrite Hnb. apply fnmatch_SERVICE_LOGS_intro.
  - unfold suite_name_of.
    rewrite (stem_log a ("k8s_assisted-service" ++ mid)%string);
      [|discriminate | now rewrite Hna, append_assoc_s].
    rewrite (stem_log b ("k8s_assisted-service" ++ "k8s_" ++ mid)%string);
      [|discriminate | now rewrite Hnb, !append_assoc_s].
    change (replace "k8s_" EmptyString ("k8s_assisted-service" ++ mid))
      with ("assisted-service" ++ replace_from "k8s_" EmptyString 0 mid)%string.
    change (replace "k8s_" EmptyString ("k8s_assisted-service" ++ "k8s_" ++ mid))
      with ("assisted-service" ++ replace_from "k8s_" EmptyString 0 ("k8s_" ++ mid))%string.
    now rewrite replace_from_occurrence.
Qed.

(** ** Flags that were not given *)

(** X14: without [--dst] the script ends with a [TypeError] before the
    wrapper is entered, and the same holds for any exception of [mkdir];
    without [--src], once the destination exists, the [TypeError] is raised
    inside the wrapper, right after the first message and before any
    directory is scanned. *)
Theorem missing_flags :
  forall w args log,
    (dst args = None -> main w args log = (Raise TypeError, log)) /\
    (forall report_dir e,
        Path.of_arg (dst args) = Ok report_dir ->
        mkdir_exist_ok w report_dir = Raise e ->
        main w args log = (Raise e, log)) /\
    (forall report_dir,
        src args = None ->
        main_body w args report_dir log =
        (Raise TypeError,
         log ++ [Logged ("Parsing logs from `None` to `" ++ Path.to_str report_dir ++ "`")])).
Proof.
  intros w args log. split; [|split].
  - intro Hdst. unfold main, io_bind, lift. now rewrite Hdst.
  - intros report_dir e Hdst Hmk. unfold main, io_bind, lift. now rewrite Hdst, Hmk.
  - intros report_dir Hsrc. unfold main_body, io_bind, lift, log_info. now rewrite Hsrc.
Qed.

(** ** Well-formed lines are parsed to their fields *)

Lemma lacks_app a x y : lacks a (x ++ y) = lacks a x && lacks a y.
Proof.
  induction x as [|c x IH]; simpl; [reflexivity|].
  now rewrite IH, andb_assoc.
Qed.

Lemma no_LF_lacks s : no_LF s = lacks LF s.
Proof. induction s as [|c s IH]; simpl; [reflexivity | now rewrite IH]. Qed.

Lemma strip_prefix_lacks a p s :
  lacks a s = true -> lacks a p = false -> strip_prefix p s = None.
Proof.
  revert s. induction p as [|b p IH]; intros s Hs Hp; simpl in *; [discriminate|].
  destruct s as [|c s]; [reflexivity|]. simpl in Hs.
  apply andb_true_iff in Hs as [Hc Hs].
  destruct (Ascii.eqb b c) eqn:E; [|reflexivity].
  apply Ascii.eqb_eq in E. subst c. rewrite Hc in Hp. simpl in Hp. now apply IH.
Qed.

Lemma strip_prefix_keeps_lacks a p s s' :
  strip_prefix p s = Some s' -> lacks a s = true -> lacks a s' = true.
Proof.
  revert s. induction p as [|b p IH]; intros s; simpl.
  - now intros [= ->].
  - destruct s as [|c s]; [discriminate|].
    destruct (Ascii.eqb b c); [|discriminate].
    intros H Hs. simpl in Hs. apply andb_true_iff in Hs as [_ Hs]. now apply (IH s).
Qed.

Lemma dotstar_lazy_now k s e : k s = Some e -> dotstar false k s = Some e.
Proof.
  intro H. destruct s as [|c t]; simpl; [exact H|].
  destruct (Ascii.eqb c LF); now rewrite H.
Qed.

(** A lazy [.*?] passes the characters its continuation refuses at once
    and stops at the first place where the continuation succeeds. *)
Lemma dotstar_lazy_hit a k x s e :
  (forall c y, Ascii.eqb c a = false -> k (String c y) = None) ->
  lacks a x = true -> lacks LF x = true ->
  k s = Some e ->
  dotstar false k (x ++ s) = Some e.
Proof.
  intros Hfail Ha Hlf Hk. induction x as [|c x IH]; simpl.
  - now apply dotstar_lazy_now.
  - simpl in Ha, Hlf.
    apply andb_true_iff in Ha as [Hca Ha]. apply andb_true_iff in Hlf as [Hcl Hlf].
    apply negb_true_iff in Hca, Hcl. rewrite Hcl, (Hfail c _ Hca). now apply IH.
Qed.

(** A greedy [.*] prefers the last place where the continuation succeeds. *)
Lemma dotstar_greedy_hit k x s e :
  lacks LF x = true ->
  dotstar true k s = Some e ->
  dotstar true k (x ++ s) = Some e.
Proof.
  intros Hlf Hk. induction x as [|c x IH]; simpl; [exact Hk|].
  simpl in Hlf. apply andb_true_iff in Hlf as [Hcl Hlf].
  apply negb_true_iff in Hcl. rewrite Hcl. now rewrite IH.
Qed.

Lemma dotstar_greedy_here k c t e :
  Ascii.eqb c LF = false ->
  dotstar true k t = None ->
  k (String c t) = Some e ->
  dotstar true k (String c t) = Some e.
Proof. intros Hc Ht Hk. simpl. now rewrite Hc, Ht. Qed.

Lemma dotstar_greedy_skip a k x s :
  (forall c y, Ascii.eqb c a = false -> k (String c y) = None) ->
  lacks a x = true ->
  dotstar true k s = None ->
  dotstar true k (x ++ s) = None.
Proof.
  intros Hfail Ha Hk. induction x as [|c x IH]; simpl; [exact Hk|].
  simpl in Ha. apply andb_true_iff in Ha as [Hca Ha]. apply negb_true_iff in Hca.
  rewrite (IH Ha), (Hfail c _ Hca). now destruct (Ascii.eqb c LF).
Qed.

Lemma dotstar_none a g k s :
  (forall s', lacks a s' = true -> k s' = None) ->
  lacks a s = true ->
  dotstar g k s = None.
Proof.
  intros Hk. induction s as [|c t IH]; intro Hs; simpl.
  - now apply Hk.
  - assert (Ht : lacks a t = true)
      by (simpl in Hs; now apply andb_true_iff in Hs as [_ Hs]).
    rewrite (Hk _ Hs), (IH Ht). now destruct (Ascii.eqb c LF), g.
Qed.

Lemma dotstar_greedy_step_none k c t :
  dotstar true k t = None -> k (String c t) = None -> dotstar true k (String c t) = None.
Proof. intros Ht Hk. simpl. rewrite Ht, Hk. now destruct (Ascii.eqb c LF). Qed.

Lemma strip_prefix_append p s : strip_prefix p (p ++ s) = Some s.
Proof.
  induction p as [|a p IH]; simpl; [reflexivity|]. now rewrite Ascii.eqb_refl.
Qed.

Lemma rmatch_lit_hit p r s env k :
  rmatch (Cat (Lit p) r) (p ++ s) env k = rmatch r s env k.
Proof. cbn [rmatch]. now rewrite strip_prefix_append. Qed.

Lemma rmatch_lit_miss a p r c y env k :
  Ascii.eqb c a = false -> rmatch (Cat (Lit (String a p)) r) (String c y) env k = None.
Proof. intro H. cbn [rmatch strip_prefix]. now rewrite Ascii.eqb_sym, H. Qed.

Lemma rmatch_lit_lacks a p r s env k :
  lacks a s = true -> lacks a p = false -> rmatch (Cat (Lit p) r) s env k = None.
Proof. intros Hs Hp. cbn [rmatch]. now rewrite (strip_prefix_lacks a p s Hs Hp). Qed.

Lemma rmatch_lit_then p r s env k :
  (forall s', strip_prefix p s = Some s' -> rmatch r s' env k = None) ->
  rmatch (Cat (Lit p) r) s env k = None.
Proof.
  intro H. cbn [rmatch]. destruct (strip_prefix p s) as [s'|]; [now apply H | reflexivity].
Qed.

(** A lazily captured field ends where the rest of the pattern first
    matches. *)
Lemma rmatch_lazy_field n r a x s env k e :
  (forall c y env', Ascii.eqb c a = false -> rmatch r (String c y) env' k = None) ->
  lacks a x = true -> lacks LF x = true ->
  rmatch r s (record (Some n) x env) k = Some e ->
  rmatch (Cat (Group (Some n) (Group None (DotStar false))) r) (x ++ s) env k = Some e.
Proof.
  intros Hfail Ha Hlf Hk. cbn [rmatch].
  apply (dotstar_lazy_hit a); try assumption.
  - intros c y Hc. now apply Hfail.
  - now rewrite consumed_app.
Qed.

(** A greedily captured field ends where the rest of the pattern matches
    for the last time. *)
Lemma rmatch_greedy_field n r x c t env k e :
  lacks LF x = true -> Ascii.eqb c LF = false ->
  (forall E : string -> captures,
      dotstar true (fun s' => rmatch r s' (E s') k) t = None) ->
  rmatch r (String c t) (record (Some n) x env) k = Some e ->
  rmatch (Cat (Group (Some n) (DotStar true)) r) (x ++ String c t) env k = Some e.
Proof.
  intros Hlf Hc Hlater Hk. cbn [rmatch].
  apply dotstar_greedy_hit; [assumption|].
  apply dotstar_greedy_here; [assumption | |].
  - apply (Hlater (fun s' => record (Some n) (consumed (x ++ String c t) s') env)).
  - now rewrite consumed_app.
Qed.

Lemma rmatch_lit_miss2 a b p r c y env k :
  Ascii.eqb c b = false ->
  rmatch (Cat (Lit (String a (String b p))) r) (String a (String c y)) env k = None.
Proof.
  intro H. cbn [rmatch strip_prefix]. now rewrite Ascii.eqb_refl, Ascii.eqb_sym, H.
Qed.

Lemma rmatch_opt_miss r s env k :
  rmatch r s env k = None -> rmatch (Opt r) s env k = k s env.
Proof. intro H. cbn [rmatch]. now rewrite H. Qed.

Lemma lacks_head a x s :
  lacks a x = true -> Ascii.eqb a LF = false ->
  exists c y, (x ++ String LF s)%string = String c y /\ Ascii.eqb c a = false.
Proof.
  intros Hx Ha. destruct x as [|c x]; simpl.
  - exists LF, s. split; [reflexivity|]. now rewrite Ascii.eqb_sym.
  - simpl in Hx. apply andb_true_iff in Hx as [Hc _]. apply negb_true_iff in Hc.
    now exists c, (x ++ String LF s)%string.
Qed.

(** From the file literal on, the pattern needs a double quote. *)
Lemma file_onward_lacks r s env k :
  lacks DQ s = true ->
  rmatch (Cat (Lit " ") (Cat (Lit ("file=" ++ dq)) r)) s env k = None.
Proof.
  intro Hs. apply rmatch_lit_then. intros s' Hs'.
  apply (rmatch_lit_lacks DQ); [|reflexivity].
  now apply (strip_prefix_keeps_lacks DQ " " s s').
Qed.

(** So does it from the func literal on. *)
Lemma func_onward_lacks r s env k :
  lacks DQ s = true ->
  rmatch (Cat (Lit "func=")
            (Cat (Group (Some "func") (DotStar true))
               (Cat (Lit " ") (Cat (Lit ("file=" ++ dq)) r)))) s env k = None.
Proof.
  intro Hs. apply rmatch_lit_then. intros s' Hs'.
  cbn [rmatch]. apply (dotstar_none DQ).
  - intros s'' Hs''. fold (rmatch r). apply (file_onward_lacks r s'' _ k Hs'').
  - now apply (strip_prefix_keeps_lacks DQ "func=" s s').
Qed.

Lemma grouped_line_parsed t l m f fl tail :
  lacks LF t = true -> lacks DQ t = true ->
  lacks LF l = true -> lacks SP l = true ->
  lacks LF m = true ->
  lacks LF f = true -> lacks DQ f = true ->
  lacks LF fl = true -> lacks DQ fl = true -> lacks SP fl = true ->
  lacks DQ tail = true ->
  rmatch LOG_FORMAT
    (("time=" ++ dq) ++ t ++ (dq ++ " ") ++ "level=" ++ l ++ " " ++ ("msg=" ++ dq) ++ m
     ++ (dq ++ " ") ++ "func=" ++ f ++ " " ++ ("file=" ++ dq) ++ fl ++ (dq ++ " ")
     ++ tail ++ nl)%string
    [] (fun _ env => Some env)
  = Some [("file", fl); ("func", f); ("msg", m); ("level", l); ("time", t)].
Proof.
  intros Ht1 Ht2 Hl1 Hl2 Hm1 Hf1 Hf2 Hfl1 Hfl2 Hfl3 Htail.
  assert (Hend : lacks DQ (tail ++ nl) = true) by (now rewrite lacks_app, Htail).
  unfold LOG_FORMAT.
  rewrite rmatch_lit_hit.
  apply (rmatch_lazy_field "time" _ DQ); try assumption.
  { intros c y env' Hc. exact (rmatch_lit_miss DQ " " _ c y env' _ Hc). }
  rewrite !rmatch_lit_hit.
  apply (rmatch_lazy_field "level" _ SP); try assumption.
  { intros c y env' Hc. exact (rmatch_lit_miss SP EmptyString _ c y env' _ Hc). }
  rewrite !rmatch_lit_hit.
  (* msg *)
  change ((dq ++ " ") ++ "func=" ++ f ++ " " ++ ("file=" ++ dq) ++ fl ++ (dq ++ " ")
          ++ tail ++ nl)%string
    with (String DQ (" func=" ++ f ++ " file="
                     ++ String DQ (fl ++ String DQ (" " ++ tail ++ nl))))%string.
  apply (rmatch_greedy_field "msg"); [assumption | reflexivity | |].
  { intro E.
    assert (Hmiss : forall c y, Ascii.eqb c DQ = false ->
              (fun s' => rmatch
                 (Lit (dq ++ " ") ~> Lit "func=" ~> Group (Some "func") (DotStar true) ~>
                  Lit " " ~> Lit ("file=" ++ dq) ~>
                  Group (Some "file") (Group None (DotStar false)) ~> Lit (dq ++ " ") ~>
                  Opt (Group None (Lit ("error=" ++ dq) ~>
                                   Group (Some "error") (DotStar true) ~> Lit dq)))%re
                 s' (E s') (fun _ env => Some env)) (String c y) = None).
    { intros c y Hc. exact (rmatch_lit_miss DQ " " _ c y _ _ Hc). }
    apply (dotstar_greedy_skip DQ _ " func="); [exact Hmiss | reflexivity |].
    apply (dotstar_greedy_skip DQ _ f); [exact Hmiss | assumption |].
    apply (dotstar_greedy_skip DQ _ " file="); [exact Hmiss | reflexivity |].
    apply dotstar_greedy_step_none.
    - apply (dotstar_greedy_skip DQ _ fl); [exact Hmiss | assumption |].
      apply dotstar_greedy_step_none.
      + apply (dotstar_none DQ); [|exact Hend].
        intros s' Hs'. now apply (rmatch_lit_lacks DQ).
      + change (String DQ (" " ++ tail ++ nl))%string
          with ((dq ++ " ") ++ tail ++ nl)%string.
        rewrite rmatch_lit_hit. now apply func_onward_lacks.
    - destruct fl as [|c fl'].
      + exact (rmatch_lit_miss2 DQ SP EmptyString _ DQ _ _ _ eq_refl).
      + simpl in Hfl3. apply andb_true_iff in Hfl3 as [Hc _]. apply negb_true_iff in Hc.
        exact (rmatch_lit_miss2 DQ SP EmptyString _ c _ _ _ Hc). }
  change (String DQ (" func=" ++ f ++ " file="
                     ++ String DQ (fl ++ String DQ (" " ++ tail ++ nl))))%string
    with ((dq ++ " ") ++ "func=" ++ f
          ++ String SP ("file=" ++ String DQ (fl ++ String DQ (" " ++ tail ++ nl))))%string.
  rewrite !rmatch_lit_hit.
  apply (rmatch_greedy_field "func"); [assumption | reflexivity | |].
  { intro E.
    assert (Hmiss : forall c y, Ascii.eqb c SP = false ->
              (fun s' => rmatch
                 (Lit " " ~> Lit ("file=" ++ dq) ~>
                  Group (Some "file") (Group None (DotStar false)) ~> Lit (dq ++ " ") ~>
                  Opt (Group None (Lit ("error=" ++ dq) ~>
                                   Group (Some "error") (DotStar true) ~> Lit dq)))%re
                 s' (E s') (fun _ env => Some env)) (String c y) = None).
    { intros c y Hc. exact (rmatch_lit_miss SP EmptyString _ c y _ _ Hc). }
    apply (dotstar_greedy_skip SP _ "file="); [exact Hmiss | reflexivity |].
    apply (dotstar_greedy_skip SP _ (String DQ EmptyString)); [exact Hmiss | reflexivity |].
    apply (dotstar_greedy_skip SP _ fl); [exact Hmiss | assumption |].
    apply (dotstar_greedy_skip SP _ (String DQ EmptyString)); [exact Hmiss | reflexivity |].
    apply (dotstar_none DQ); [|exact Hend].
    intros s' Hs'. now apply file_onward_lacks. }
  change (String SP ("file=" ++ String DQ (fl ++ String DQ (" " ++ tail ++ nl))))%string
    with (" " ++ ("file=" ++ dq) ++ fl ++ (dq ++ " ") ++ tail ++ nl)%string.
  rewrite !rmatch_lit_hit.
  apply (rmatch_lazy_field "file" _ DQ); try assumption.
  { intros c y env' Hc. exact (rmatch_lit_miss DQ " " _ c y env' _ Hc). }
  rewrite rmatch_lit_hit, rmatch_opt_miss; [reflexivity|].
  cbn [rmatch]. now rewrite (strip_prefix_lacks DQ ("error=" ++ dq) (tail ++ nl)).
Qed.

(** X15: a line in the stated format is parsed to its fields.  When the
    time and the file path hold no double quote, the level and the file
    path no space, the func no double quote, no field a line feed, and a
    space and then text without double quote follow the file field, the
    line matches and the entry has exactly these five texts, the error
    field being unset.  The msg may hold any text but a line feed. *)
Theorem well_formed_line_parsed :
  forall t l m f fl tail,
    lacks LF t = true -> lacks DQ t = true ->
    lacks LF l = true -> lacks SP l = true ->
    lacks LF m = true ->
    lacks LF f = true -> lacks DQ f = true ->
    lacks LF fl = true -> lacks DQ fl = true -> lacks SP fl = true ->
    lacks DQ tail = true ->
    re_match LOG_FORMAT (log_line t l m f fl (" " ++ tail)) =
      Some [("time", Some t); ("level", Some l); ("msg", Some m);
            ("func", Some f); ("file", Some fl); ("error", None)] /\
    parse_line (log_line t l m f fl (" " ++ tail)) =
      Some (Ok (mkLogEntry (Some t) (Some l) (Some m) (Some f) (Some fl) None)).
Proof.
  intros t l m f fl tail Ht1 Ht2 Hl1 Hl2 Hm1 Hf1 Hf2 Hfl1 Hfl2 Hfl3 Htail.
  pose proof (grouped_line_parsed t l m f fl tail Ht1 Ht2 Hl1 Hl2 Hm1 Hf1 Hf2
                Hfl1 Hfl2 Hfl3 Htail) as Hrun.
  assert (Hre : re_match LOG_FORMAT (log_line t l m f fl (" " ++ tail)) =
                Some [("time", Some t); ("level", Some l); ("msg", Some m);
                      ("func", Some f); ("file", Some fl); ("error", None)]).
  { unfold re_match.
    change (log_line t l m f fl (" " ++ tail))
      with (("time=" ++ dq) ++ t ++ (dq ++ " ") ++ "level=" ++ l ++ " " ++ ("msg=" ++ dq) ++ m
            ++ (dq ++ " ") ++ "func=" ++ f ++ " " ++ ("file=" ++ dq) ++ fl ++ (dq ++ " ")
            ++ tail ++ nl)%string.
    rewrite Hrun. reflexivity. }
  split; [exact Hre|].
  unfold parse_line. rewrite Hre. reflexivity.
Qed.

Lemma well_formed_line_parsed_witness :
  re_match LOG_FORMAT
    (log_line "2021-01-01T10:00:05Z" "error" "failed to reach host" "Install"
       "main.go:7" (" " ++ "pkg=Inventory")) =
    Some [("time", Some "2021-01-01T10:00:05Z"); ("level", Some "error");
          ("msg", Some "failed to reach host");
          ("func", Some "Install"); ("file", Some "main.go:7"); ("error", None)] /\
  parse_line
    (log_line "2021-01-01T10:00:05Z" "error" "failed to reach host" "Install"
       "main.go:7" (" " ++ "pkg=Inventory")) =
    Some (Ok (mkLogEntry (Some "2021-01-01T10:00:05Z") (Some "error")
                (Some "failed to reach host") (Some "Install") (Some "main.go:7") None)).
Proof.
  apply (well_formed_line_parsed "2021-01-01T10:00:05Z" "error" "failed to reach host"
           "Install" "main.go:7" "pkg=Inventory"); reflexivity.
Defined.

(** ** Lines with an error field *)

Lemma strip_prefix_before_quote p x z s' :
  strip_prefix p (x ++ String DQ z) = Some s' ->
  lacks DQ p = true -> lacks DQ x = true ->
  exists x', s' = (x' ++ String DQ z)%string /\ lacks DQ x' = true.
Proof.
  revert x. induction p as [|a p IH]; intros x; cbn [strip_prefix lacks].
  - intros [= <-] _ Hx. now exists x.
  - intros H Hp Hx. apply andb_true_iff in Hp as [Ha Hp]. apply negb_true_iff in Ha.
    destruct x as [|c x]; cbn [append lacks] in *.
    + rewrite Ha in H. discriminate.
    + destruct (Ascii.eqb a c); [|discriminate].
      apply andb_true_iff in Hx as [_ Hx]. now apply (IH x).
Qed.

Lemma strip_prefix_to_quote q x z s' :
  strip_prefix (q ++ String DQ EmptyString) (x ++ String DQ z) = Some s' ->
  lacks DQ q = true -> lacks DQ x = true -> s' = z.
Proof.
  revert x. induction q as [|a q IH]; intros x; cbn [append strip_prefix lacks].
  - destruct x as [|c x]; cbn [append lacks].
    + rewrite Ascii.eqb_refl. now intros [= <-].
    + intros H _ Hx. apply andb_true_iff in Hx as [Hc _]. apply negb_true_iff in Hc.
      rewrite Ascii.eqb_sym, Hc in H. discriminate.
  - intros H Hq Hx. apply andb_true_iff in Hq as [Ha Hq]. apply negb_true_iff in Ha.
    destruct x as [|c x]; cbn [append lacks] in *.
    + rewrite Ha in H. discriminate.
    + destruct (Ascii.eqb a c); [|discriminate].
      apply andb_true_iff in Hx as [_ Hx]. now apply (IH x).
Qed.

(** The file field and what follows it need a double quote. *)
Lemma file_field_lacks r s env k :
  lacks DQ s = true ->
  rmatch (Cat (Group (Some "file") (Group None (DotStar false)))
            (Cat (Lit (dq ++ " ")) r)) s env k = None.
Proof.
  intro Hs. cbn [rmatch]. apply (dotstar_none DQ); [|exact Hs].
  intros s' Hs'. now rewrite (strip_prefix_lacks DQ (dq ++ " ") s').
Qed.

(** Inside text without double quote that a double quote ends, the part of
    the pattern from the file literal on finds no place to match. *)
Lemma file_onward_before_quote r x z (E : string -> captures) k :
  lacks DQ x = true -> lacks DQ z = true ->
  dotstar true
    (fun s' =>
       rmatch (Cat (Lit " ")
                 (Cat (Lit ("file=" ++ dq))
                    (Cat (Group (Some "file") (Group None (DotStar false)))
                       (Cat (Lit (dq ++ " ")) r)))) s' (E s') k)
    (x ++ String DQ z) = None.
Proof.
  intros Hx Hz. induction x as [|c x IH]; cbn [append].
  - apply dotstar_greedy_step_none.
    + apply (dotstar_none DQ); [|exact Hz]. intros s' Hs'. now apply file_onward_lacks.
    + exact (rmatch_lit_miss SP EmptyString _ DQ z _ _ eq_refl).
  - simpl in Hx. apply andb_true_iff in Hx as [_ Hx].
    apply dotstar_greedy_step_none; [now apply IH|].
    apply rmatch_lit_then. intros s' Hs'.
    cbn [strip_prefix] in Hs'. destruct (Ascii.eqb " " c); [|discriminate].
    injection Hs' as <-.
    apply rmatch_lit_then. intros s'' Hs''.
    apply (strip_prefix_to_quote "file=") in Hs''; [|reflexivity | exact Hx].
    subst s''. now apply file_field_lacks.
Qed.

Lemma func_onward_before_quote r x z env k :
  lacks DQ x = true -> lacks DQ z = true ->
  rmatch (Cat (Lit "func=")
            (Cat (Group (Some "func") (DotStar true))
               (Cat (Lit " ")
                  (Cat (Lit ("file=" ++ dq))
                     (Cat (Group (Some "file") (Group None (DotStar false)))
                        (Cat (Lit (dq ++ " ")) r))))))
    (x ++ String DQ z) env k = None.
Proof.
  intros Hx Hz. apply rmatch_lit_then. intros s' Hs'.
  apply strip_prefix_before_quote in Hs' as (x' & -> & Hx'); [|reflexivity | exact Hx].
  cbn [rmatch].
  exact (file_onward_before_quote r x' z
           (fun s' => record (Some "func") (consumed (x' ++ String DQ z) s') env) k Hx' Hz).
Qed.

Lemma rmatch_lit_lit_miss p a q r c y env k :
  Ascii.eqb c a = false ->
  rmatch (Cat (Lit p) (Cat (Lit (String a q)) r)) (p ++ String c y) env k = None.
Proof. intro H. rewrite rmatch_lit_hit. now apply rmatch_lit_miss. Qed.

Lemma rmatch_opt_hit r s env k e :
  rmatch r s env k = Some e -> rmatch (Opt r) s env k = Some e.
Proof. intro H. cbn [rmatch]. now rewrite H. Qed.

Lemma grouped_error_line_parsed t l m f fl e tail :
  lacks LF t = true -> lacks DQ t = true ->
  lacks LF l = true -> lacks SP l = true ->
  lacks LF m = true ->
  lacks LF f = true -> lacks DQ f = true ->
  lacks LF fl = true -> lacks DQ fl = true -> lacks SP fl = true ->
  lacks LF e = true -> lacks DQ e = true ->
  lacks DQ tail = true ->
  rmatch LOG_FORMAT
    (("time=" ++ dq) ++ t ++ (dq ++ " ") ++ "level=" ++ l ++ " " ++ ("msg=" ++ dq) ++ m
     ++ (dq ++ " ") ++ "func=" ++ f ++ " " ++ ("file=" ++ dq) ++ fl ++ (dq ++ " ")
     ++ ("error=" ++ dq) ++ e ++ dq ++ tail ++ nl)%string
    [] (fun _ env => Some env)
  = Some [("error", e); ("file", fl); ("func", f); ("msg", m); ("level", l); ("time", t)].
Proof.
  intros Ht1 Ht2 Hl1 Hl2 Hm1 Hf1 Hf2 Hfl1 Hfl2 Hfl3 He1 He2 Htail.
  assert (Hend : lacks DQ (tail ++ nl) = true) by (now rewrite lacks_app, Htail).
  unfold LOG_FORMAT.
  rewrite rmatch_lit_hit.
  apply (rmatch_lazy_field "time" _ DQ); try assumption.
  { intros c y env' Hc. exact (rmatch_lit_miss DQ " " _ c y env' _ Hc). }
  rewrite !rmatch_lit_hit.
  apply (rmatch_lazy_field "level" _ SP); try assumption.
  { intros c y env' Hc. exact (rmatch_lit_miss SP EmptyString _ c y env' _ Hc). }
  rewrite !rmatch_lit_hit.
  change ((dq ++ " ") ++ "func=" ++ f ++ " " ++ ("file=" ++ dq) ++ fl ++ (dq ++ " ")
          ++ ("error=" ++ dq) ++ e ++ dq ++ tail ++ nl)%string
    with (String DQ (" func=" ++ f ++ " file="
                     ++ String DQ (fl ++ String DQ (" error=" ++
                          String DQ (e ++ String DQ (tail ++ nl))))))%string.
  apply (rmatch_greedy_field "msg"); [assumption | reflexivity | |].
  { intro E.
    assert (Hmiss : forall c y, Ascii.eqb c DQ = false ->
              (fun s' => rmatch
                 (Lit (dq ++ " ") ~> Lit "func=" ~> Group (Some "func") (DotStar true) ~>
                  Lit " " ~> Lit ("file=" ++ dq) ~>
                  Group (Some "file") (Group None (DotStar false)) ~> Lit (dq ++ " ") ~>
                  Opt (Group None (Lit ("error=" ++ dq) ~>
                                   Group (Some "error") (DotStar true) ~> Lit dq)))%re
                 s' (E s') (fun _ env => Some env)) (String c y) = None).
    { intros c y Hc. exact (rmatch_lit_miss DQ " " _ c y _ _ Hc). }
    apply (dotstar_greedy_skip DQ _ " func="); [exact Hmiss | reflexivity |].
    apply (dotstar_greedy_skip DQ _ f); [exact Hmiss | assumption |].
    apply (dotstar_greedy_skip DQ _ " file="); [exact Hmiss | reflexivity |].
    apply dotstar_greedy_step_none.
    - apply (dotstar_greedy_skip DQ _ fl); [exact Hmiss | assumption |].
      apply dotstar_greedy_step_none.
      + apply (dotstar_greedy_skip DQ _ " error="); [exact Hmiss | reflexivity |].
        apply dotstar_greedy_step_none.
        * apply (dotstar_greedy_skip DQ _ e); [exact Hmiss | assumption |].
          apply dotstar_greedy_step_none.
          -- apply (dotstar_none DQ); [|exact Hend].
             intros s' Hs'. now apply (rmatch_lit_lacks DQ).
          -- apply rmatch_lit_then. intros s' Hs'.
             change (strip_prefix (dq ++ " ") (String DQ (tail ++ nl)))
               with (strip_prefix " " (tail ++ nl)) in Hs'.
             apply func_onward_lacks.
             now apply (strip_prefix_keeps_lacks DQ " " (tail ++ nl) s').
        * apply rmatch_lit_then. intros s' Hs'.
          change (strip_prefix (dq ++ " ") (String DQ (e ++ String DQ (tail ++ nl))))
            with (strip_prefix " " (e ++ String DQ (tail ++ nl))) in Hs'.
          apply strip_prefix_before_quote in Hs' as (x' & -> & Hx');
            [|reflexivity | exact He2].
          now apply func_onward_before_quote.
      + exact (rmatch_lit_lit_miss (dq ++ " ") "f" "unc=" _ "e"
                 ("rror=" ++ String DQ (e ++ String DQ (tail ++ nl))) _ _ eq_refl).
    - destruct fl as [|c fl'].
      + exact (rmatch_lit_miss2 DQ SP EmptyString _ DQ _ _ _ eq_refl).
      + simpl in Hfl3. apply andb_true_iff in Hfl3 as [Hc _]. apply negb_true_iff in Hc.
        exact (rmatch_lit_miss2 DQ SP EmptyString _ c _ _ _ Hc). }
  change (String DQ (" func=" ++ f ++ " file="
                     ++ String DQ (fl ++ String DQ (" error=" ++
                          String DQ (e ++ String DQ (tail ++ nl))))))%string
    with ((dq ++ " ") ++ "func=" ++ f
          ++ String SP ("file=" ++ String DQ (fl ++ String DQ (" error=" ++
                          String DQ (e ++ String DQ (tail ++ nl))))))%string.
  rewrite !rmatch_lit_hit.
  apply (rmatch_greedy_field "func"); [assumption | reflexivity | |].
  { intro E.
    assert (Hmiss : forall c y, Ascii.eqb c SP = false ->
              (fun s' => rmatch
                 (Lit " " ~> Lit ("file=" ++ dq) ~>
                  Group (Some "file") (Group None (DotStar false)) ~> Lit (dq ++ " ") ~>
                  Opt (Group None (Lit ("error=" ++ dq) ~>
                                   Group (Some "error") (DotStar true) ~> Lit dq)))%re
                 s' (E s') (fun _ env => Some env)) (String c y) = None).
    { intros c y Hc. exact (rmatch_lit_miss SP EmptyString _ c y _ _ Hc). }
    apply (dotstar_greedy_skip SP _ "file="); [exact Hmiss | reflexivity |].
    apply (dotstar_greedy_skip SP _ (String DQ EmptyString)); [exact Hmiss | reflexivity |].
    apply (dotstar_greedy_skip SP _ fl); [exact Hmiss | assumption |].
    apply (dotstar_greedy_skip SP _ (String DQ EmptyString)); [exact Hmiss | reflexivity |].
    apply dotstar_greedy_step_none.
    - apply (dotstar_greedy_skip SP _ "error="); [exact Hmiss | reflexivity |].
      apply (dotstar_greedy_skip SP _ (String DQ EmptyString)); [exact Hmiss | reflexivity |].
      now apply file_onward_before_quote.
    - exact (rmatch_lit_lit_miss " " "f" ("ile=" ++ dq) _ "e"
               ("rror=" ++ String DQ (e ++ String DQ (tail ++ nl))) _ _ eq_refl). }
  change (String SP ("file=" ++ String DQ (fl ++ String DQ (" error=" ++
                          String DQ (e ++ String DQ (tail ++ nl))))))%string
    with (" " ++ ("file=" ++ dq) ++ fl ++ (dq ++ " ") ++ ("error=" ++ dq)
          ++ e ++ String DQ (tail ++ nl))%string.
  rewrite !rmatch_lit_hit.
  apply (rmatch_lazy_field "file" _ DQ); try assumption.
  { intros c y env' Hc. exact (rmatch_lit_miss DQ " " _ c y env' _ Hc). }
  rewrite rmatch_lit_hit. apply rmatch_opt_hit.
  change (rmatch (Group None (Lit ("error=" ++ dq) ~>
                              Group (Some "error") (DotStar true) ~> Lit dq)%re)
            (("error=" ++ dq) ++ e ++ String DQ (tail ++ nl))
            (record (Some "file") fl
               (record (Some "func") f
                  (record (Some "msg") m
                     (record (Some "level") l (record (Some "time") t [])))))
            (fun _ env => Some env))
    with (rmatch (Lit ("error=" ++ dq) ~>
                  Group (Some "error") (DotStar true) ~> Lit dq)%re
            (("error=" ++ dq) ++ e ++ String DQ (tail ++ nl))
            (record (Some "file") fl
               (record (Some "func") f
                  (record (Some "msg") m
                     (record (Some "level") l (record (Some "time") t [])))))
            (fun _ env => Some env)).
  rewrite rmatch_lit_hit.
  apply (rmatch_greedy_field "error"); [assumption | reflexivity | | reflexivity].
  intro E. apply (dotstar_none DQ); [|exact Hend].
  intros s' Hs'. cbn [rmatch]. now rewrite (strip_prefix_lacks DQ dq s').
Qed.

(** X16: a line in the stated format that carries an error field is
    parsed to its fields and its error text.  The conditions on the five
    fields are those of lines without error field; the error text may hold
    anything but a double quote and a line feed, and text without double
    quote may follow the error field.  The composed message of the entry is
    the msg, a line feed and the error text. *)
Theorem well_formed_error_line_parsed :
  forall t l m f fl e tail,
    lacks LF t = true -> lacks DQ t = true ->
    lacks LF l = true -> lacks SP l = true ->
    lacks LF m = true ->
    lacks LF f = true -> lacks DQ f = true ->
    lacks LF fl = true -> lacks DQ fl = true -> lacks SP fl = true ->
    lacks LF e = true -> lacks DQ e = true ->
    lacks DQ tail = true ->
    let line := log_line t l m f fl (" error=" ++ dq ++ e ++ dq ++ tail) in
    let entry := mkLogEntry (Some t) (Some l) (Some m) (Some f) (Some fl) (Some e) in
    parse_line line = Some (Ok entry) /\
    entry_message entry = (m ++ nl ++ e)%string.
Proof.
  intros t l m f fl e tail Ht1 Ht2 Hl1 Hl2 Hm1 Hf1 Hf2 Hfl1 Hfl2 Hfl3 He1 He2 Htail
         line entry.
  pose proof (grouped_error_line_parsed t l m f fl e tail Ht1 Ht2 Hl1 Hl2 Hm1 Hf1 Hf2
                Hfl1 Hfl2 Hfl3 He1 He2 Htail) as Hrun.
  split.
  - unfold parse_line, re_match, line, log_line. rewrite !append_assoc_s.
    change ("time=" ++ dq ++ t ++ dq ++ " level=" ++ l ++ " msg=" ++ dq ++ m ++ dq
            ++ " func=" ++ f ++ " file=" ++ dq ++ fl ++ dq ++ " error=" ++ dq ++ e
            ++ dq ++ tail ++ nl)%string
      with (("time=" ++ dq) ++ t ++ (dq ++ " ") ++ "level=" ++ l ++ " " ++ ("msg=" ++ dq) ++ m
            ++ (dq ++ " ") ++ "func=" ++ f ++ " " ++ ("file=" ++ dq) ++ fl ++ (dq ++ " ")
            ++ ("error=" ++ dq) ++ e ++ dq ++ tail ++ nl)%string.
    rewrite Hrun. reflexivity.
  - unfold entry, entry_message. cbn [msg error py_format]. now destruct e.
Qed.

Lemma well_formed_error_line_parsed_witness :
  let line := log_line "2021-01-01T10:00:05Z" "error" "failed to reach host" "Install"
                "main.go:7"
                (" error=" ++ dq ++ "dial tcp: connection refused" ++ dq ++ " pkg=Inventory") in
  let entry := mkLogEntry (Some "2021-01-01T10:00:05Z") (Some "error")
                 (Some "failed to reach host") (Some "Install") (Some "main.go:7")
                 (Some "dial tcp: connection refused") in
  parse_line line = Some (Ok entry) /\
  entry_message entry = ("failed to reach host" ++ nl ++ "dial tcp: connection refused")%string.
Proof.
  apply (well_formed_error_line_parsed "2021-01-01T10:00:05Z" "error" "failed to reach host"
           "Install" "main.go:7" "dial tcp: connection refused" " pkg=Inventory");
    reflexivity.
Defined.

Lemma missing_flags_witness :
  main sample_world (mkArgs (Some "/tmp/logs") None) [] = (Raise TypeError, []) /\
  main sample_world_no_parent sample_args_no_parent [] = (Raise FileNotFoundError, []) /\
  main_body sample_world (mkArgs None (Some "/tmp/reports")) ["/"; "tmp"; "reports"] [] =
  (Raise TypeError,
   [] ++ [Logged ("Parsing logs from `None` to `"
                  ++ Path.to_str ["/"; "tmp"; "reports"] ++ "`")]).
Proof.
  split; [|split].
  - exact (proj1 (missing_flags sample_world (mkArgs (Some "/tmp/logs") None) []) eq_refl).
  - refine (proj1 (proj2 (missing_flags sample_world_no_parent sample_args_no_parent []))
              ["/"; "missing"; "parent"; "reports"] FileNotFoundError _ _).
    + vm_compute. reflexivity.
    + reflexivity.
  - exact (proj2 (proj2 (missing_flags sample_world (mkArgs None (Some "/tmp/reports")) []))
             ["/"; "tmp"; "reports"] eq_refl).
Defined.
